(** * ssh-portfolio: the live-track rendering pipeline

    A shallow embedding of the three Go packages of the repository that the
    "now playing" widget is made of:

    - [Albumart]: package [albumart], the half-block renderer and its
      process-wide cache (RenderFromURL, renderImage, renderPlaceholder,
      ClearCache);
    - [Spotify]: package [spotify], the Web API client (ensureValidToken,
      refreshAccessToken, GetCurrentlyPlaying, GetRecentlyPlayed);
    - [Session]: package [main], the per-connection model (fetchTrack,
      Update, the text fields of renderSpotifyWidget).

    Go's [int] is taken at its 64-bit width; the two computations of the
    sources that can leave that range, [height * 2] and the conversion of
    [expires_in] to a [time.Duration], have their wrap-around written out.
    Go strings are byte strings and are modelled by [string]. The network,
    the clock, the JSON and image decoders, the resampling filter and the
    iteration order of [range] over a map belong to the environment; every
    interaction with it is recorded in a trace of events. Calls of the
    logger are left out, and so are the mutexes: every critical section is
    one step of the model. *)

From Stdlib Require Import ZArith String Ascii List Lia DecimalString.
From stdpp Require Import gmap strings list fin_maps.

Local Open Scope Z_scope.

(** ** Go's integers, strings and formatting *)

Module Go.

Definition max_int : Z := 9223372036854775807.
Definition min_int : Z := -9223372036854775808.

(** Two's complement reduction of a mathematical integer to [int] (and to
    [int64], the representation of [time.Duration]). *)
Definition wrap (z : Z) : Z := (z + 2 ^ 63) mod 2 ^ 64 - 2 ^ 63.

Definition in_int (z : Z) : Prop := min_int <= z <= max_int.

(** The verb [%d] of package [fmt]. *)
Definition fmt_d (z : Z) : string := NilEmpty.string_of_int (Z.to_int z).

Definition ESC : ascii := ascii_of_nat 27.
Definition LF : ascii := ascii_of_nat 10.

(** [len(s)]. *)
Definition len (s : string) : Z := Z.of_nat (String.length s).

(** [s[:n]] for [0 <= n <= len(s)]. *)
Definition slice_to (s : string) (n : Z) : string :=
  String.substring 0 (Z.to_nat n) s.

(** [s[i]] as an optional byte. *)
Definition index (s : string) (i : Z) : option ascii :=
  if i <? 0 then None else String.get (Z.to_nat i) s.

(** [strings.Split(s, sep)] for a one-byte separator. *)
Fixpoint split (sep : ascii) (s : string) : list string :=
  match s with
  | EmptyString => [EmptyString]
  | String c s' =>
      if Ascii.eqb c sep then EmptyString :: split sep s'
      else match split sep s' with
           | [] => [String c EmptyString]
           | l :: ls => String c l :: ls
           end
  end.

(** Number of positions of [s] at which [pat] starts. *)
Fixpoint occurrences (pat s : string) : nat :=
  match s with
  | EmptyString => if String.prefix pat EmptyString then 1 else 0
  | String _ s' => ((if String.prefix pat s then 1 else 0) + occurrences pat s')%nat
  end.

(** [mentions c s]: the byte [c] occurs in [s]. *)
Fixpoint mentions (c : ascii) (s : string) : bool :=
  match s with
  | EmptyString => false
  | String d s' => Ascii.eqb d c || mentions c s'
  end.

(** [s] occurs in [t] as a substring. *)
Definition contains (t s : string) : Prop :=
  exists pre post, t = pre +:+ s +:+ post.

(** A counted loop [for i := i0; i < stop; i += step { s = body(i, s) }],
    [step >= 1]. The fuel is the distance to the bound, which is never
    fewer than the iterations left, so that the loop ends by its test and
    not by its fuel. The loops of the program count from 0 by one, or by
    two towards an even bound: their counters cannot overflow, and the
    increment is written without wrap-around. *)
Fixpoint for_fuel {S : Type} (fuel : nat) (stop step : Z)
    (body : Z -> S -> S) (i : Z) (s : S) : S :=
  match fuel with
  | O => s
  | Datatypes.S fuel' =>
      if i <? stop then for_fuel fuel' stop step body (i + step) (body i s)
      else s
  end.

Definition for_lt {S : Type} (i0 stop step : Z) (body : Z -> S -> S) (s : S) : S :=
  for_fuel (Z.to_nat (stop - i0)) stop step body i0 s.

(** [strings.Repeat]-like iteration used on the specification side. *)
Fixpoint replicate_str (n : nat) (s : string) : string :=
  match n with
  | O => EmptyString
  | Datatypes.S n' => s +:+ replicate_str n' s
  end.

End Go.

(** ** The environment and the trace of interactions *)

(** A Go [error] is represented by its message. *)
Definition error : Type := string.

Inductive result (A : Type) : Type :=
| Ok (a : A)
| Err (e : error).
Arguments Ok {A} a.
Arguments Err {A} e.

(** A call into a library either returns or panics; a panic ends the
    computation that made the call. *)
Inductive outcome (A : Type) : Type :=
| Returns (a : A)
| Panics.
Arguments Returns {A} a.
Arguments Panics {A}.

(** The [Authorization] header of a request. [Basic user pass] stands for
    [Basic base64(user:pass)]. *)
Inductive Auth : Type :=
| NoAuth
| Bearer (token : string)
| Basic (user pass : string).

Record Request : Type := mkRequest {
  req_method : string;
  req_url : string;
  req_auth : Auth;
  req_form : list (string * string)
}.

Record Response : Type := mkResponse {
  StatusCode : Z;
  Body : string
}.

(** What the process does to the outside world, in order. *)
Inductive Event : Type :=
| EvCall (name : string)           (* entry into an API operation *)
| EvSend (r : Request)             (* an HTTP request leaves the process *)
| EvNow                            (* the clock is read *)
| EvJSON (body : string)           (* a response body is given to the JSON decoder *)
| EvImage (body : string)          (* a response body is given to image.Decode *)
| EvRange.                         (* a map is iterated over *)

(** The network and the clock answer as a function of everything that
    happened before. Instants and durations are counted in nanoseconds. *)
Record Env : Type := mkEnv {
  httpDo : list Event -> Request -> result Response;
  timeNow : list Event -> Z
}.

(** Mutable variables [P] of a package together with the trace. *)
Record World (P : Type) : Type := mkWorld {
  vars : P;
  trace : list Event
}.
Arguments mkWorld {P} vars trace.
Arguments vars {P} w.
Arguments trace {P} w.

(** State-passing computations. *)
Definition M (St A : Type) : Type := St -> A * St.

#[global] Instance M_ret (St : Type) : MRet (M St) :=
  fun A (a : A) st => (a, st).
#[global] Instance M_bind (St : Type) : MBind (M St) :=
  fun A B (k : A -> M St B) (m : M St A) st => let (a, st') := m st in k a st'.

Section Primitives.
Context {P : Type}.
Variable E : Env.

Definition get_vars : M (World P) P := fun w => (vars w, w).
Definition set_vars (p : P) : M (World P) unit :=
  fun w => (tt, mkWorld p (trace w)).
Definition emit (ev : Event) : M (World P) unit :=
  fun w => (tt, mkWorld (vars w) (trace w ++ [ev])).

(** [client.Do(req)] and [http.Get(url)]. *)
Definition http_do (r : Request) : M (World P) (result Response) :=
  fun w => (httpDo E (trace w) r, mkWorld (vars w) (trace w ++ [EvSend r])).

(** [time.Now()]. *)
Definition time_now : M (World P) Z :=
  fun w => (timeNow E (trace w), mkWorld (vars w) (trace w ++ [EvNow])).
End Primitives.

(** The requests a computation sent. *)
Definition requests (tr : list Event) : list Request :=
  omap (fun ev => match ev with EvSend r => Some r | _ => None end) tr.

(** A stretch of trace without entries into API operations. *)
Definition quiet (evs : list Event) : Prop :=
  Forall (fun ev => forall name, ev <> EvCall name) evs.

(** ** Package albumart *)

Module Albumart.

(** The four results of [Color.RGBA()]: 16-bit samples held in [uint32]. *)
Record Color : Type := mkColor { R : Z; G : Z; B : Z; A : Z }.

(** An [image.Image], seen through [At(x, y).RGBA()]. *)
Record Image : Type := mkImage { At : Z -> Z -> Color }.

Record cacheEntry : Type := mkEntry {
  rendered : string;
  timestamp : Z
}.

Definition cacheTTL : Z := 5 * 60 * 1000000000.
Definition cacheSize : Z := 10.

(** What package albumart takes from its libraries: [image.Decode]; the
    allocation of an RGBA raster of the requested size followed by the
    Catmull-Rom scaler that fills it, which panics when [image.NewRGBA]
    cannot address or allocate that size; and the order in which [range]
    visits a map. *)
Record Imaging : Type := mkImaging {
  imageDecode : string -> result Image;
  catmullRom : Image -> Z -> Z -> outcome Image;
  rangeOrder : list Event -> gmap string cacheEntry -> list (string * cacheEntry)
}.

Definition reset_nl : string := String Go.ESC ("[0m" +:+ String Go.LF "").
Definition reset : string := String Go.ESC "[0m".
Definition newline : string := String Go.LF "".

(** [fmt.Sprintf("\x1b[38;2;%d;%d;%dm\x1b[48;2;%d;%d;%dm▀", ...)]. *)
Definition sprintf_cell (topR topG topB botR botG botB : Z) : string :=
  String Go.ESC ("[38;2;" +:+ Go.fmt_d topR +:+ ";" +:+ Go.fmt_d topG +:+ ";"
    +:+ Go.fmt_d topB +:+ "m" +:+
  String Go.ESC ("[48;2;" +:+ Go.fmt_d botR +:+ ";" +:+ Go.fmt_d botG +:+ ";"
    +:+ Go.fmt_d botB +:+ "m▀")).

(** [if len(result) > 0 && result[len(result)-1] == '\n' { result = result[:len(result)-1] }] *)
Definition trim_newline (result : string) : string :=
  if (0 <? Go.len result) &&
     match Go.index result (Go.len result - 1) with
     | Some c => Ascii.eqb c Go.LF
     | None => false
     end
  then Go.slice_to result (Go.len result - 1)
  else result.

Definition resizeImage (I : Imaging) (img : Image) (width height : Z) : outcome Image :=
  catmullRom I img width height.

(** The two loops of renderImage over the resized raster. *)
Definition renderRows (resized : Image) (width pixelHeight : Z) : string :=
  let sb :=
    Go.for_lt 0 pixelHeight 2 (fun y sb =>
      let sb :=
        Go.for_lt 0 width 1 (fun x sb =>
          let top := At resized x y in
          let topR := Z.shiftr (R top) 8 in
          let topG := Z.shiftr (G top) 8 in
          let topB := Z.shiftr (B top) 8 in
          let '(botR, botG, botB) :=
            if y + 1 <? pixelHeight then
              let bot := At resized x (y + 1) in
              (Z.shiftr (R bot) 8, Z.shiftr (G bot) 8, Z.shiftr (B bot) 8)
            else (topR, topG, topB) in
          sb +:+ sprintf_cell topR topG topB botR botG botB) sb in
      sb +:+ reset_nl) "" in
  trim_newline sb.

Definition renderImage (I : Imaging) (img : Image) (width height : Z) : outcome string :=
  let pixelHeight := Go.wrap (height * 2) in
  match resizeImage I img width pixelHeight with
  | Panics => Panics
  | Returns resized => Returns (renderRows resized width pixelHeight)
  end.

Definition gray : string :=
  String Go.ESC ("[38;2;60;60;60m" +:+ String Go.ESC "[48;2;40;40;40m▀").

Definition renderPlaceholder (width height : Z) : string :=
  let sb :=
    Go.for_lt 0 height 1 (fun y sb =>
      let sb := Go.for_lt 0 width 1 (fun x sb => sb +:+ gray) sb in
      sb +:+ reset_nl) "" in
  trim_newline sb.

(** One step of the scan for the oldest entry:
    [if oldestKey == "" || v.timestamp.Before(oldestTime) { ... }]. *)
Definition oldest_step (acc : string * Z) (kv : string * cacheEntry) : string * Z :=
  let '(oldestKey, oldestTime) := acc in
  if String.eqb oldestKey "" || (timestamp (snd kv) <? oldestTime)
  then (fst kv, timestamp (snd kv))
  else acc.

(** The zero [time.Time], in nanoseconds from the Unix epoch. *)
Definition zeroTime : Z := -62135596800 * 1000000000.

Definition oldest (order : list (string * cacheEntry)) : string :=
  fst (fold_left oldest_step order (""%string, zeroTime)).

Definition State : Type := World (gmap string cacheEntry).

(** The critical section that stores a rendering (lines 85 to 99). *)
Definition store (E : Env) (I : Imaging) (url rendered : string) : M State unit :=
  cache ← get_vars;
  (if cacheSize <=? Z.of_nat (size cache) then
     tr ← (fun w : State => (trace w, w));
     emit EvRange;;
     set_vars (delete (oldest (rangeOrder I tr cache)) cache)
   else mret tt);;
  cache ← get_vars;
  now ← time_now E;
  set_vars (<[url := mkEntry rendered now]> cache).

(** The cache probe (lines 59 to 66): [time.Since] reads the clock only
    when the key is present. *)
Definition probe (E : Env) (url : string) : M State (option string) :=
  cache ← get_vars;
  match cache !! url with
  | Some entry =>
      now ← time_now E;
      if now - timestamp entry <? cacheTTL then mret (Some (rendered entry))
      else mret None
  | None => mret None
  end.

Definition image_decode (I : Imaging) (body : string) : M State (result Image) :=
  emit (EvImage body);; mret (imageDecode I body).

Definition http_get (E : Env) (url : string) : M State (result Response) :=
  http_do E (mkRequest "GET" url NoAuth []).

Definition RenderFromURL (E : Env) (I : Imaging) (url : string) (width height : Z)
    : M State (outcome (string * option error)) :=
  if String.eqb url "" then mret (Returns (renderPlaceholder width height, None))
  else
    hit ← probe E url;
    match hit with
    | Some frame => mret (Returns (frame, None))
    | None =>
        resp ← http_get E url;
        match resp with
        | Err e => mret (Returns (renderPlaceholder width height, Some e))
        | Ok resp =>
            img ← image_decode I (Body resp);
            match img with
            | Err e => mret (Returns (renderPlaceholder width height, Some e))
            | Ok img =>
                match renderImage I img width height with
                | Panics => mret Panics
                | Returns rendered =>
                    store E I url rendered;;
                    mret (Returns (rendered, None))
                end
            end
        end
    end.

Definition ClearCache : M State unit := set_vars ∅.

End Albumart.

(** ** Package spotify *)

Module Spotify.

Record Client : Type := mkClient {
  clientID : string;
  clientSecret : string;
  refreshToken : string;
  accessToken : string;
  tokenExpiry : Z
}.

Record Track : Type := mkTrack {
  Name : string;
  Artist : string;
  Album : string;
  ArtworkURL : string;
  IsPlaying : bool
}.

Record tokenResponse : Type := mkTokenResponse {
  AccessToken : string;
  TokenType : string;
  ExpiresIn : Z
}.

(** The anonymous structs of the two response types: an album with the
    URLs of its images, and a track with the names of its artists. *)
Record albumJSON : Type := mkAlbumJSON {
  album_name : string;
  album_images : list string
}.

Record itemJSON : Type := mkItemJSON {
  item_name : string;
  item_album : albumJSON;
  item_artists : list string
}.

Record currentlyPlayingResponse : Type := mkCurrentlyPlaying {
  cp_is_playing : bool;
  cp_item : option itemJSON
}.

Record recentlyPlayedResponse : Type := mkRecentlyPlayed {
  rp_items : list itemJSON
}.

(** [json.NewDecoder(body).Decode(&v)] at the three response types. *)
Record Json : Type := mkJson {
  decodeToken : string -> result tokenResponse;
  decodeCurrentlyPlaying : string -> result currentlyPlayingResponse;
  decodeRecentlyPlayed : string -> result recentlyPlayedResponse
}.

Definition zeroTime : Z := -62135596800 * 1000000000.
Definition Second : Z := 1000000000.

Definition NewClient (clientID clientSecret refreshToken : string) : Client :=
  mkClient clientID clientSecret refreshToken "" zeroTime.

Definition State : Type := World Client.

Definition json_decode {A : Type} (dec : string -> result A) (body : string)
    : M State (result A) :=
  emit (EvJSON body);; mret (dec body).

Definition tokenRequest (c : Client) : Request :=
  mkRequest "POST" "https://accounts.spotify.com/api/token"
    (Basic (clientID c) (clientSecret c))
    [("grant_type", "refresh_token"); ("refresh_token", refreshToken c)].

Definition apiRequest (url : string) (c : Client) : Request :=
  mkRequest "GET" url (Bearer (accessToken c)) [].

Definition currentlyPlayingURL : string :=
  "https://api.spotify.com/v1/me/player/currently-playing".
Definition recentlyPlayedURL : string :=
  "https://api.spotify.com/v1/me/player/recently-played?limit=1".

(** [time.Duration(tokenResp.ExpiresIn-60) * time.Second], in [int64]. *)
Definition lifetime (expiresIn : Z) : Z :=
  Go.wrap (Go.wrap (expiresIn - 60) * Second).

(** [http.NewRequest] cannot fail on the constant method and URL it is
    given here; its error branch is left out, also in the two operations
    below. *)
Definition refreshAccessToken (E : Env) (J : Json) : M State (option error) :=
  c ← get_vars;
  resp ← http_do E (tokenRequest c);
  match resp with
  | Err e => mret (Some e)
  | Ok resp =>
      if negb (StatusCode resp =? 200) then
        mret (Some ("failed to refresh token: " +:+ Go.fmt_d (StatusCode resp)))
      else
        tokenResp ← json_decode (decodeToken J) (Body resp);
        match tokenResp with
        | Err e => mret (Some e)
        | Ok tokenResp =>
            now ← time_now E;
            c ← get_vars;
            set_vars (mkClient (clientID c) (clientSecret c) (refreshToken c)
                        (AccessToken tokenResp)
                        (now + lifetime (ExpiresIn tokenResp)));;
            mret None
        end
  end.

(** [valid := c.accessToken != "" && time.Now().Before(c.tokenExpiry)]:
    the clock is read only for a non-empty token. *)
Definition ensureValidToken (E : Env) (J : Json) : M State (option error) :=
  c ← get_vars;
  valid ← (if negb (String.eqb (accessToken c) "") then
             now ← time_now E; mret (now <? tokenExpiry c)
           else mret false);
  if valid : bool then mret None else refreshAccessToken E J.

(** The field mapping shared by both operations: the artist and the
    artwork URL stay empty unless the respective list has a first element. *)
Definition trackOf (it : itemJSON) (isPlaying : bool) : Track :=
  let artist := match item_artists it with a :: _ => a | [] => "" end in
  let artworkURL := match album_images (item_album it) with u :: _ => u | [] => "" end in
  mkTrack (item_name it) artist (album_name (item_album it)) artworkURL isPlaying.

Definition GetCurrentlyPlaying (E : Env) (J : Json)
    : M State (option Track * option error) :=
  emit (EvCall "GetCurrentlyPlaying");;
  err ← ensureValidToken E J;
  match err with
  | Some err => mret (None, Some ("failed to get valid token: " +:+ err))
  | None =>
      c ← get_vars;
      resp ← http_do E (apiRequest currentlyPlayingURL c);
      match resp with
      | Err e => mret (None, Some e)
      | Ok resp =>
          if StatusCode resp =? 204 then mret (None, None)
          else if negb (StatusCode resp =? 200) then
            mret (None, Some ("spotify API error: " +:+ Go.fmt_d (StatusCode resp)))
          else
            data ← json_decode (decodeCurrentlyPlaying J) (Body resp);
            match data with
            | Err e => mret (None, Some e)
            | Ok data =>
                match cp_item data with
                | None => mret (None, None)
                | Some it => mret (Some (trackOf it (cp_is_playing data)), None)
                end
            end
      end
  end.

Definition GetRecentlyPlayed (E : Env) (J : Json)
    : M State (option Track * option error) :=
  emit (EvCall "GetRecentlyPlayed");;
  err ← ensureValidToken E J;
  match err with
  | Some err => mret (None, Some ("failed to get valid token: " +:+ err))
  | None =>
      c ← get_vars;
      resp ← http_do E (apiRequest recentlyPlayedURL c);
      match resp with
      | Err e => mret (None, Some e)
      | Ok resp =>
          if negb (StatusCode resp =? 200) then
            mret (None, Some ("spotify API error: " +:+ Go.fmt_d (StatusCode resp)))
          else
            data ← json_decode (decodeRecentlyPlayed J) (Body resp);
            match data with
            | Err e => mret (None, Some e)
            | Ok data =>
                match rp_items data with
                | [] => mret (None, None)
                | it :: _ => mret (Some (trackOf it false), None)
                end
            end
      end
  end.

End Spotify.

(** ** Package main: the session *)

Module Session.
Import Spotify.

Record trackMsg : Type := mkTrackMsg {
  track : option Track;
  err : option error
}.

Record model : Type := mkModel {
  width : Z;
  height : Z;
  currentTrack : option Track
}.

(** The package variable [spotifyClient]: [None] is the nil pointer of a
    process started without credentials. *)
Definition State : Type := World (option Client).

(** [track.IsPlaying = false]. *)
Definition stopped (t : Track) : Track :=
  mkTrack (Name t) (Artist t) (Album t) (ArtworkURL t) false.

(** The body of fetchTrack once [spotifyClient] is known not to be nil. *)
Definition fetchWith (E : Env) (J : Json) : M Spotify.State trackMsg :=
  '(track, err) ← GetCurrentlyPlaying E J;
  match err with
  | Some e => mret (mkTrackMsg None (Some e))
  | None =>
      match track with
      | Some _ => mret (mkTrackMsg track err)
      | None =>
          '(track, err) ← GetRecentlyPlayed E J;
          let track :=
            match track with
            | Some t => Some (stopped t)
            | None => None
            end in
          mret (mkTrackMsg track err)
      end
  end.

Definition fetchTrack (E : Env) (J : Json) : M State trackMsg :=
  fun w =>
    match vars w with
    | None => (mkTrackMsg None None, w)
    | Some c =>
        let (msg, w') := fetchWith E J (mkWorld c (trace w)) in
        (msg, mkWorld (Some (vars w')) (trace w'))
    end.

Inductive Msg : Type :=
| WindowSizeMsg (w h : Z)
| TrackMsg (m : trackMsg)
| TickMsg
| KeyMsg (key : string).

Inductive Cmd : Type := CmdNil | CmdFetchTrack | CmdQuit.

Definition Update (m : model) (msg : Msg) : model * Cmd :=
  match msg with
  | WindowSizeMsg w h => (mkModel w h (currentTrack m), CmdNil)
  | TrackMsg msg =>
      match err msg, track msg with
      | None, Some t => (mkModel (width m) (height m) (Some t), CmdNil)
      | _, _ => (m, CmdNil)
      end
  | TickMsg => (m, CmdFetchTrack)
  | KeyMsg key =>
      if String.eqb key "ctrl+c" || String.eqb key "q" || String.eqb key "enter"
      then (m, CmdQuit) else (m, CmdNil)
  end.

(** [if len(s) > 26 { s = s[:23] + "..." }], applied by
    renderSpotifyWidget to the name, the artist and the album. *)
Definition clip (s : string) : string :=
  if 26 <? Go.len s then Go.slice_to s 23 +:+ "..." else s.

(** The three text lines renderSpotifyWidget hands to the layout, for a
    model that has a track. *)
Record widgetText : Type := mkWidgetText {
  trackName : string;
  artist : string;
  album : string
}.

Definition renderSpotifyWidget (m : model) : option widgetText :=
  match currentTrack m with
  | None => None
  | Some t => Some (mkWidgetText (clip (Name t)) (clip (Artist t)) (clip (Album t)))
  end.

End Session.

(** ** The shape of a frame, in the words of the output contract *)

Module Frame.
Import Albumart.

(** The top 8 bits of a 16-bit sample. *)
Definition top8 (c : Z) : Z := c / 256.

(** The cell at column [x] of cell row [y]: the upper half block with the
    colour of pixel [(x, 2y)] as foreground and that of pixel [(x, 2y+1)]
    as background. *)
Definition cell (pix : Z -> Z -> Color) (y x : Z) : string :=
  let top := pix x (2 * y) in
  let bot := pix x (2 * y + 1) in
  sprintf_cell (top8 (R top)) (top8 (G top)) (top8 (B top))
               (top8 (R bot)) (top8 (G bot)) (top8 (B bot)).

Definition is_cell (s : string) : Prop :=
  exists a b c d e f, s = sprintf_cell a b c d e f.

(** A line: [cols] cells and then the reset sequence. *)
Definition line (pix : Z -> Z -> Color) (cols y : Z) : string :=
  String.concat "" (map (cell pix y) (seqZ 0 cols)) +:+ reset.

Definition lines (pix : Z -> Z -> Color) (cols rows : Z) : list string :=
  map (line pix cols) (seqZ 0 rows).

(** [frame] is [rows] lines separated by newlines, nothing after the last
    one; each line is [cols] cells and then its only reset sequence. *)
Definition well_shaped (pix : Z -> Z -> Color) (cols rows : Z) (frame : string) : Prop :=
  frame = String.concat newline (lines pix cols rows) /\
  Go.split Go.LF frame = lines pix cols rows /\
  length (Go.split Go.LF frame) = Z.to_nat rows /\
  Forall (fun l => Go.occurrences reset l = 1%nat) (Go.split Go.LF frame).

(** The placeholder: every pixel dim gray. *)
Definition gray_cell : string := sprintf_cell 60 60 60 40 40 40.

Definition placeholder_line (cols : Z) : string :=
  Go.replicate_str (Z.to_nat cols) gray_cell +:+ reset.

Definition placeholder (cols rows : Z) : string :=
  String.concat newline (repeat (placeholder_line cols) (Z.to_nat rows)).

End Frame.

(** ** Reachable states of the cache *)

Module CacheRuns.
Import Albumart.

(** The states the package can be in: it starts with an empty map, and
    the exported operations are the only ones to touch it. Sessions run in
    parallel, so the critical section that stores a rendering may also run
    on a state other than the one its call has probed: [reach_store] is
    such a late insertion by a call of another session. *)
Inductive reachable (E : Env) (I : Imaging) : State -> Prop :=
| reach_init : reachable E I (mkWorld ∅ [])
| reach_render w url width height :
    reachable E I w ->
    reachable E I (snd (RenderFromURL E I url width height w))
| reach_store w url frame :
    url <> ""%string ->
    reachable E I w ->
    reachable E I (snd (store E I url frame w))
| reach_clear w :
    reachable E I w ->
    reachable E I (snd (ClearCache w)).

(** [range] visits every entry of the map once, in some order. *)
Definition range_ok (I : Imaging) : Prop :=
  forall tr (m : gmap string cacheEntry), rangeOrder I tr m ≡ₚ map_to_list m.

(** What every reachable state satisfies: at most ten entries, and none
    under the empty key, which the scan for the oldest entry uses as its
    "nothing yet" mark. *)
Definition cache_inv (w : State) : Prop :=
  (size (vars w) <= 10)%nat /\ vars w !! ""%string = None.

End CacheRuns.

(** ** Sample environments *)

Module Sample.

(** A decoder that accepts every body as an image of one colour, a scaler
    that keeps that colour at every size, and a [range] in the order of the
    entries. *)
Definition orange : Albumart.Image :=
  Albumart.mkImage (fun _ _ => Albumart.mkColor 65535 32896 0 65535).

Definition imaging : Albumart.Imaging :=
  Albumart.mkImaging (fun _ => Ok orange) (fun img _ _ => Returns img)
                     (fun _ m => map_to_list m).

(** A decoder that rejects every body. *)
Definition no_decoder : Albumart.Imaging :=
  Albumart.mkImaging (fun _ => Err "image: unknown format") (fun img _ _ => Returns img)
                     (fun _ m => map_to_list m).

(** Every request is answered 200; the clock advances with the trace. *)
Definition online : Env :=
  mkEnv (fun _ _ => Ok (mkResponse 200 "body")) (fun tr => Z.of_nat (length tr)).

(** Every request is answered 500. *)
Definition failing : Env :=
  mkEnv (fun _ _ => Ok (mkResponse 500 "Internal Server Error"))
        (fun tr => Z.of_nat (length tr)).

Definition empty_cache : Albumart.State := mkWorld ∅ [].

(** Eleven URLs, rendered one after the other. *)
Definition first_ten : list string :=
  ["u01"; "u02"; "u03"; "u04"; "u05"; "u06"; "u07"; "u08"; "u09"; "u10"]%string.

Definition render_all (urls : list string) (w : Albumart.State) : Albumart.State :=
  fold_left (fun w url => snd (Albumart.RenderFromURL online imaging url 2 1 w)) urls w.

Definition full_cache : Albumart.State := render_all first_ten empty_cache.

(** The cache after one rendering at 1 x 1. *)
Definition one_entry : Albumart.State :=
  snd (Albumart.RenderFromURL online imaging "http://img/1" 1 1 empty_cache).

(** The API of scenario 1: the token endpoint grants a token for an hour,
    nothing is playing (204), and the history has one item. *)
Definition fade : Spotify.itemJSON :=
  Spotify.mkItemJSON "Fade" (Spotify.mkAlbumJSON "13" ["http://img/1"%string]) ["Blur"%string].

Definition json : Spotify.Json :=
  Spotify.mkJson
    (fun _ => Ok (Spotify.mkTokenResponse "BQD" "Bearer" 3600))
    (fun _ => Ok (Spotify.mkCurrentlyPlaying true None))
    (fun _ => Ok (Spotify.mkRecentlyPlayed [fade])).

Definition nothing_playing : Env :=
  mkEnv (fun _ r =>
           if String.eqb (req_url r) Spotify.currentlyPlayingURL
           then Ok (mkResponse 204 "")
           else Ok (mkResponse 200 "{}"))
        (fun tr => Z.of_nat (length tr)).

Definition fresh_client : Spotify.State :=
  mkWorld (Spotify.NewClient "id" "secret" "refresh") [].

(** A token endpoint that grants 90 seconds, and a clock that is read at
    0 s, 29 s, 58 s, ... *)
Definition short_lived : Spotify.Json :=
  Spotify.mkJson
    (fun _ => Ok (Spotify.mkTokenResponse "BQD" "Bearer" 90))
    (fun _ => Err "unexpected end of JSON input")
    (fun _ => Err "unexpected end of JSON input").

Definition readings (tr : list Event) : Z :=
  Z.of_nat (length (List.filter (fun ev => match ev with EvNow => true | _ => false end) tr)).

Definition slow_clock : Env :=
  mkEnv (fun _ _ => Ok (mkResponse 200 "{}"))
        (fun tr => 29 * Spotify.Second * readings tr).

(** A token endpoint that grants one minute. *)
Definition minute : Spotify.Json :=
  Spotify.mkJson
    (fun _ => Ok (Spotify.mkTokenResponse "BQD" "Bearer" 60))
    (fun _ => Err "unexpected end of JSON input")
    (fun _ => Err "unexpected end of JSON input").

(** A token endpoint that grants more seconds than a [time.Duration] can
    count in nanoseconds. *)
Definition long_lived : Spotify.Json :=
  Spotify.mkJson
    (fun _ => Ok (Spotify.mkTokenResponse "BQD" "Bearer" 9223372097))
    (fun _ => Err "unexpected end of JSON input")
    (fun _ => Err "unexpected end of JSON input").

(** A token endpoint whose reply is not JSON. *)
Definition garbled : Spotify.Json :=
  Spotify.mkJson
    (fun _ => Err "invalid character '<' looking for beginning of value")
    (fun _ => Err "invalid character '<' looking for beginning of value")
    (fun _ => Err "invalid character '<' looking for beginning of value").

(** A session without credentials, and one with them. *)
Definition unconfigured : World (option Spotify.Client) := mkWorld None [].
Definition configured : World (option Spotify.Client) :=
  mkWorld (Some (Spotify.NewClient "id" "secret" "refresh")) [].

(** A track name of 30 bytes. *)
Definition long_name : string := "abcdefghijklmnopqrstuvwxyz0123".

End Sample.


(** ** Looking into the cache *)

Module Lookup.
Import Albumart.

(** The request of [http.Get(url)]. *)
Definition GET (url : string) : Request := mkRequest "GET" url NoAuth [].

(** The entry under [url] is there and younger than the TTL at the next
    reading of the clock. *)
Definition fresh (E : Env) (url : string) (w : State) : bool :=
  match vars w !! url with
  | Some entry => timeNow E (trace w) - timestamp entry <? cacheTTL
  | None => false
  end.

End Lookup.

(** ** Looking at the token *)

Module Token.
Import Spotify.

(** The test of ensureValidToken at the next reading of the clock:
    [c.accessToken != "" && time.Now().Before(c.tokenExpiry)]. *)
Definition valid (E : Env) (w : State) : bool :=
  negb (String.eqb (accessToken (vars w)) "") && (timeNow E (trace w) <? tokenExpiry (vars w)).

(** The world in which an API operation [name] runs its token step. *)
Definition entered (name : string) (w : State) : State :=
  mkWorld (vars w) (trace w ++ [EvCall name]).

(** The credentials a client was made with. *)
Definition credentials (c : Client) : string * string * string :=
  (clientID c, clientSecret c, refreshToken c).

End Token.

(** ** Package main: start-up and layout *)

Module Startup.
Import Spotify Session.

(** The credential gate of [main]: the client exists only when the three
    environment variables are all set. *)
Definition configure (clientID clientSecret refreshToken : string) : option Client :=
  if negb (String.eqb clientID "") && negb (String.eqb clientSecret "")
     && negb (String.eqb refreshToken "")
  then Some (NewClient clientID clientSecret refreshToken)
  else None.

(** teaHandler: the model of a new session has the size of its terminal
    window and no track. *)
Definition teaHandler (windowWidth windowHeight : Z) : model :=
  mkModel windowWidth windowHeight None.

(** The vertical centring of View:
    [topPadding := (m.height - contentHeight) / 2; if topPadding < 0 { topPadding = 0 }],
    with Go's subtraction on [int] and its division that truncates towards
    zero. *)
Definition topPadding (height contentHeight : Z) : Z :=
  let topPadding := Z.quot (Go.wrap (height - contentHeight)) 2 in
  if topPadding <? 0 then 0 else topPadding.

(** The artwork of the widget:
    [art, _ := albumart.RenderFromURL(m.currentTrack.ArtworkURL, 16, 8)],
    made only for a model that has a track; the error is dropped. *)
Definition widgetArt (E : Env) (I : Albumart.Imaging) (m : model)
    : M Albumart.State (option (outcome string)) :=
  match currentTrack m with
  | None => mret None
  | Some t =>
      r ← Albumart.RenderFromURL E I (ArtworkURL t) 16 8;
      match r with
      | Panics => mret (Some Panics)
      | Returns (art, _) => mret (Some (Returns art))
      end
  end.

(** The model after a run of messages. *)
Definition deliver (m : model) (msgs : list Msg) : model :=
  fold_left (fun m msg => fst (Update m msg)) msgs m.

End Startup.

(** * Properties *)

(** ** Loops and strings *)

Module GoFacts.
Import Go.

Example fmt_d_samples :
  fmt_d 0 = "0"%string /\ fmt_d 255 = "255"%string /\ fmt_d (-7) = "-7"%string /\
  fmt_d 404 = "404"%string.
Proof. repeat split. Qed.

Example wrap_samples :
  wrap (9223372036854775807 * 2) = -2 /\ wrap (-9223372036854775807 * 2) = 2 /\
  wrap (8 * 2) = 16.
Proof. repeat split. Qed.

Lemma wrap_id z : in_int z -> wrap z = z.
Proof.
  unfold in_int, min_int, max_int, wrap. intros H.
  rewrite Z.mod_small by lia. lia.
Qed.

(** The counters of the loops stay in range: below a bound that is an
    [int], a step of one cannot overflow, and nor can a step of two from an
    even counter below an even bound. *)
Lemma counter_no_wrap (i stop step : Z) :
  in_int stop -> 0 <= i < stop ->
  step = 1 \/ (step = 2 /\ Z.even i = true /\ Z.even stop = true) ->
  wrap (i + step) = i + step /\ i + step <= stop.
Proof.
  unfold in_int, min_int, max_int. intros Hstop Hi Hstep.
  assert (Hle : i + step <= stop).
  { destruct Hstep as [-> | (-> & Hei & Hes)]; [lia |].
    apply Z.even_spec in Hei as [a ->]. apply Z.even_spec in Hes as [b ->]. lia. }
  split; [| exact Hle]. apply wrap_id. unfold in_int, min_int, max_int. lia.
Qed.

Lemma for_fuel_enough {S : Type} (stop step : Z) (body : Z -> S -> S) :
  0 < step ->
  forall f1 f2 i s,
    (Z.to_nat (stop - i) <= f1)%nat -> (Z.to_nat (stop - i) <= f2)%nat ->
    for_fuel f1 stop step body i s = for_fuel f2 stop step body i s.
Proof.
  intros Hstep f1. induction f1 as [|f1 IH]; intros [|f2] i s H1 H2; simpl; trivial.
  - destruct (Z.ltb_spec i stop); [lia | reflexivity].
  - destruct (Z.ltb_spec i stop); [lia | reflexivity].
  - destruct (Z.ltb_spec i stop); [| reflexivity].
    apply IH; lia.
Qed.

(** The loop obeys the equation of the [for] statement. *)
Lemma for_lt_unfold {S : Type} (i stop step : Z) (body : Z -> S -> S) (s : S) :
  0 < step ->
  for_lt i stop step body s =
    if i <? stop then for_lt (i + step) stop step body (body i s) else s.
Proof.
  intros Hstep. unfold for_lt.
  destruct (Z.ltb_spec i stop) as [Hlt | Hge].
  - destruct (Z.to_nat (stop - i)) as [|k] eqn:Hk; [lia |].
    simpl. destruct (Z.ltb_spec i stop); [| lia].
    apply for_fuel_enough; lia.
  - replace (Z.to_nat (stop - i)) with O by lia. reflexivity.
Qed.

Lemma for_lt_done {S : Type} (i stop step : Z) (body : Z -> S -> S) (s : S) :
  stop <= i -> for_lt i stop step body s = s.
Proof.
  intros H. unfold for_lt. replace (Z.to_nat (stop - i)) with O by lia. reflexivity.
Qed.

Lemma app_nil_r (s : string) : s +:+ "" = s.
Proof. induction s as [|c s IH]; [reflexivity |]. change (String c (s +:+ "") = String c s). now rewrite IH. Qed.

Lemma app_cons (c : ascii) (s t : string) : String c s +:+ t = String c (s +:+ t).
Proof. reflexivity. Qed.

Lemma app_assoc (s t u : string) : (s +:+ t) +:+ u = s +:+ (t +:+ u).
Proof.
  induction s as [|c s IH]; [reflexivity |].
  rewrite !app_cons. now rewrite IH.
Qed.

Lemma length_app (s t : string) :
  String.length (s +:+ t) = (String.length s + String.length t)%nat.
Proof.
  induction s as [|c s IH]; [reflexivity |].
  rewrite app_cons. simpl. now rewrite IH.
Qed.

Lemma mentions_app (c : ascii) (s t : string) :
  mentions c (s +:+ t) = mentions c s || mentions c t.
Proof.
  induction s as [|d s IH]; [reflexivity |].
  rewrite app_cons. simpl. rewrite IH. now rewrite orb_assoc.
Qed.

Lemma concat_empty_cons (x : string) (l : list string) :
  String.concat "" (x :: l) = x +:+ String.concat "" l.
Proof. destruct l; simpl; [now rewrite app_nil_r | reflexivity]. Qed.

(** A loop that only appends yields the pieces of its iterations in order. *)
Lemma for_lt_pieces (step : Z) (body : Z -> string -> string) (f : Z -> string) :
  0 < step ->
  forall (n : nat) (i : Z) (sb : string),
    (forall (k : nat) (s : string), (k < n)%nat ->
        body (i + step * Z.of_nat k) s = s +:+ f (i + step * Z.of_nat k)) ->
    for_lt i (i + step * Z.of_nat n) step body sb =
    sb +:+ String.concat "" (map (fun k : nat => f (i + step * Z.of_nat k)) (seq 0 n)).
Proof.
  intros Hstep n. induction n as [|n IH]; intros i sb Hbody.
  - rewrite for_lt_done by lia. simpl. now rewrite app_nil_r.
  - rewrite for_lt_unfold by lia.
    destruct (Z.ltb_spec i (i + step * Z.of_nat (S n))) as [_ | Hge]; [| nia].
    replace (i + step * Z.of_nat (S n)) with ((i + step) + step * Z.of_nat n) by lia.
    rewrite IH.
    + specialize (Hbody 0%nat sb ltac:(lia)).
      replace (i + step * Z.of_nat 0) with i in Hbody by lia. rewrite Hbody.
      rewrite app_assoc. f_equal.
      change (seq 0 (S n)) with (0%nat :: seq 1 n).
      rewrite <- seq_shift. cbn [map]. rewrite List.map_map.
      replace (i + step * Z.of_nat 0) with i by lia.
      rewrite concat_empty_cons. f_equal. f_equal. apply map_ext. intros k. f_equal. lia.
    + intros k s Hk.
      replace (i + step + step * Z.of_nat k) with (i + step * Z.of_nat (S k)) by lia.
      apply Hbody. lia.
Qed.

Lemma map_seqZ {A : Type} (f : Z -> A) (i n : Z) :
  map f (seqZ i n) = map (fun k : nat => f (Z.of_nat k + i)) (seq 0 (Z.to_nat n)).
Proof.
  unfold seqZ. generalize (seq 0 (Z.to_nat n)) as l.
  induction l as [|k l IH]; [reflexivity |]. cbn. now rewrite <- IH.
Qed.

(** The same, for a bound given as an integer: a loop from [0] in steps of
    one runs over [seqZ 0 stop]. *)
Lemma for_lt_upto (stop : Z) (body : Z -> string -> string) (f : Z -> string) (sb : string) :
  (forall x s, body x s = s +:+ f x) ->
  for_lt 0 stop 1 body sb = sb +:+ String.concat "" (map f (seqZ 0 stop)).
Proof.
  intros Hbody. destruct (Z.le_gt_cases 0 stop) as [Hpos | Hneg].
  - pose proof (for_lt_pieces 1 body f ltac:(lia)
                  (Z.to_nat stop) 0 sb ltac:(intros; apply Hbody)) as H.
    replace (0 + 1 * Z.of_nat (Z.to_nat stop)) with stop in H by lia.
    rewrite H. f_equal. f_equal. rewrite map_seqZ.
    apply map_ext. intros k. f_equal. lia.
  - rewrite for_lt_done by lia.
    unfold seqZ. replace (Z.to_nat stop) with O by lia. simpl. now rewrite app_nil_r.
Qed.

Lemma get_app_end (s : string) (c : ascii) (t : string) :
  String.get (String.length s) (s +:+ String c t) = Some c.
Proof. induction s as [|d s IH]; [reflexivity | rewrite app_cons; simpl; exact IH]. Qed.

Lemma substring_app_start (s t : string) :
  String.substring 0 (String.length s) (s +:+ t) = s.
Proof.
  induction s as [|d s IH].
  - simpl. destruct t; reflexivity.
  - rewrite app_cons. simpl. now rewrite IH.
Qed.

(** The pieces of a string without separator bytes are found again by
    [split]. *)
Lemma split_quiet (sep : ascii) (s : string) :
  mentions sep s = false -> split sep s = [s].
Proof.
  induction s as [|c s IH]; [reflexivity |].
  simpl. intros H. apply orb_false_iff in H as [Hc Hs].
  rewrite Hc, (IH Hs). reflexivity.
Qed.

Lemma split_app_sep (sep : ascii) (s t : string) :
  mentions sep s = false ->
  split sep (s +:+ String sep t) = s :: split sep t.
Proof.
  induction s as [|c s IH]; intros H.
  - change (split sep (String sep t) = "" :: split sep t).
    simpl. now rewrite Ascii.eqb_refl.
  - simpl in H. apply orb_false_iff in H as [Hc Hs].
    rewrite app_cons. simpl. rewrite Hc, (IH Hs). reflexivity.
Qed.

Lemma split_concat (sep : ascii) (ls : list string) :
  ls <> [] ->
  Forall (fun l => mentions sep l = false) ls ->
  split sep (String.concat (String sep "") ls) = ls.
Proof.
  induction ls as [|l ls IH]; [congruence |].
  intros _ Hall. inversion Hall as [|? ? Hl Hls]; subst.
  destruct ls as [|l' ls].
  - simpl. now apply split_quiet.
  - change (String.concat (String sep "") (l :: l' :: ls))
      with (l +:+ String sep "" +:+ String.concat (String sep "") (l' :: ls)).
    change (String sep "" +:+ String.concat (String sep "") (l' :: ls))
      with (String sep (String.concat (String sep "") (l' :: ls))).
    rewrite split_app_sep by assumption.
    f_equal. apply IH; [congruence | assumption].
Qed.

(** Decimal numerals consist of digits and at most a sign. *)
Lemma mentions_uint (c : ascii) (u : Decimal.uint) :
  (forall d, In d ["0"; "1"; "2"; "3"; "4"; "5"; "6"; "7"; "8"; "9"]%char -> Ascii.eqb d c = false) ->
  mentions c (NilEmpty.string_of_uint u) = false.
Proof.
  intros H. induction u; cbn [mentions NilEmpty.string_of_uint]; trivial;
    rewrite IHu, orb_false_r; apply H; cbn [In]; tauto.
Qed.

Lemma mentions_fmt_d (c : ascii) (z : Z) :
  (forall d, In d ["-"; "0"; "1"; "2"; "3"; "4"; "5"; "6"; "7"; "8"; "9"]%char -> Ascii.eqb d c = false) ->
  mentions c (fmt_d z) = false.
Proof.
  intros H. unfold fmt_d.
  assert (Hu : forall u, mentions c (NilEmpty.string_of_uint u) = false).
  { intros u. apply mentions_uint. intros d Hd. apply H. cbn [In] in *. tauto. }
  destruct (Z.to_int z) as [u | u]; cbn [NilEmpty.string_of_int mentions].
  - apply Hu.
  - rewrite Hu, orb_false_r. apply H. cbn [In]. tauto.
Qed.

Lemma fmt_d_no_ESC z : mentions ESC (fmt_d z) = false.
Proof.
  apply mentions_fmt_d. intros d Hd. simpl in Hd.
  repeat (destruct Hd as [<- | Hd]; [reflexivity |]). destruct Hd.
Qed.

Lemma fmt_d_no_LF z : mentions LF (fmt_d z) = false.
Proof.
  apply mentions_fmt_d. intros d Hd. simpl in Hd.
  repeat (destruct Hd as [<- | Hd]; [reflexivity |]). destruct Hd.
Qed.

(** A pattern that begins with a byte absent from [a] cannot start inside
    [a]. *)
Lemma occurrences_skip (c : ascii) (pat a t : string) :
  mentions c a = false ->
  occurrences (String c pat) (a +:+ String c t) = occurrences (String c pat) (String c t).
Proof.
  induction a as [|d a IH]; intros H; [reflexivity |].
  simpl in H. apply orb_false_iff in H as [Hd Ha].
  rewrite app_cons.
  change (occurrences (String c pat) (String d (a +:+ String c t)))
    with ((if String.prefix (String c pat) (String d (a +:+ String c t)) then 1 else 0)
          + occurrences (String c pat) (a +:+ String c t))%nat.
  rewrite (IH Ha).
  simpl String.prefix.
  destruct (ascii_dec c d) as [-> | _]; [now rewrite Ascii.eqb_refl in Hd | reflexivity].
Qed.

End GoFacts.

(** ** The renderer *)

Module AlbumartFacts.
Import Go GoFacts Albumart Frame CacheRuns.

Lemma reset_nl_eq : reset_nl = reset +:+ newline.
Proof. reflexivity. Qed.

Lemma trim_newline_app (s : string) : trim_newline (s +:+ newline) = s.
Proof.
  unfold trim_newline, Go.len, Go.index, Go.slice_to, newline.
  rewrite length_app. cbn [String.length].
  replace (Z.of_nat (String.length s + 1) - 1) with (Z.of_nat (String.length s)) by lia.
  rewrite Nat2Z.id.
  destruct (Z.ltb_spec 0 (Z.of_nat (String.length s + 1))) as [_ | H]; [| lia].
  destruct (Z.ltb_spec (Z.of_nat (String.length s)) 0) as [H | _]; [lia |].
  rewrite get_app_end, Ascii.eqb_refl. cbn [andb].
  apply substring_app_start.
Qed.

Lemma concat_newlines (ls : list string) :
  ls <> [] ->
  String.concat "" (map (fun l => l +:+ newline) ls) = String.concat newline ls +:+ newline.
Proof.
  induction ls as [|l ls IH]; [congruence |]. intros _.
  destruct ls as [|l' ls]; [reflexivity |].
  change (map (fun l => l +:+ newline) (l :: l' :: ls))
    with ((l +:+ newline) :: map (fun l => l +:+ newline) (l' :: ls)).
  rewrite concat_empty_cons, IH by congruence.
  change (String.concat newline (l :: l' :: ls))
    with (l +:+ newline +:+ String.concat newline (l' :: ls)).
  now rewrite !app_assoc.
Qed.

(** What both renderers build: the rows, each closed by reset and newline,
    with the last newline taken off again. *)
Lemma frame_of_rows (ls : list string) :
  trim_newline ("" +:+ String.concat "" (map (fun l => l +:+ reset_nl) ls)) =
  String.concat newline (map (fun l => l +:+ reset) ls).
Proof.
  change ("" +:+ String.concat "" (map (fun l => l +:+ reset_nl) ls))
    with (String.concat "" (map (fun l => l +:+ reset_nl) ls)).
  destruct ls as [|l ls]; [reflexivity |].
  replace (map (fun l => l +:+ reset_nl) (l :: ls))
    with (map (fun l => l +:+ newline) (map (fun l => l +:+ reset) (l :: ls))).
  - rewrite concat_newlines by discriminate. apply trim_newline_app.
  - rewrite List.map_map. apply map_ext. intros a.
    now rewrite reset_nl_eq, app_assoc.
Qed.

Lemma gray_eq : gray = gray_cell.
Proof. reflexivity. Qed.

Lemma concat_const (s : string) (l : list Z) :
  String.concat "" (map (fun _ => s) l) = replicate_str (length l) s.
Proof.
  induction l as [|x l IH]; [reflexivity |].
  cbn [map]. rewrite concat_empty_cons, IH. reflexivity.
Qed.

Lemma map_const {X Y : Type} (c : Y) (l : list X) :
  map (fun _ => c) l = repeat c (length l).
Proof. induction l as [|x l IH]; [reflexivity |]. cbn. now rewrite IH. Qed.

(** renderPlaceholder yields the placeholder frame, whatever the sizes. *)
Lemma renderPlaceholder_frame (width height : Z) :
  renderPlaceholder width height = placeholder width height.
Proof.
  unfold renderPlaceholder, placeholder.
  set (row := String.concat "" (map (fun _ : Z => gray) (seqZ 0 width))).
  assert (Hrows : forall n : nat,
    for_lt 0 (0 + 1 * Z.of_nat n) 1
      (fun (_ : Z) (sb : string) =>
         for_lt 0 width 1 (fun (_ : Z) (sb0 : string) => sb0 +:+ gray) sb +:+ reset_nl) "" =
    "" +:+ String.concat "" (map (fun _ : nat => row +:+ reset_nl) (seq 0 n))).
  { intros n. apply (for_lt_pieces 1 _ (fun _ => row +:+ reset_nl)); [lia |].
    intros k s _. rewrite (for_lt_upto width _ (fun _ => gray)) by reflexivity. apply app_assoc. }
  destruct (Z.le_gt_cases 0 height) as [Hpos | Hneg].
  - specialize (Hrows (Z.to_nat height)).
    replace (0 + 1 * Z.of_nat (Z.to_nat height)) with height in Hrows by lia.
    rewrite Hrows.
    rewrite <- (List.map_map (fun _ : nat => row) (fun l => l +:+ reset_nl)).
    rewrite frame_of_rows. f_equal. rewrite List.map_map.
    unfold placeholder_line, row. rewrite concat_const, length_seqZ, gray_eq.
    rewrite map_const, length_seq. reflexivity.
  - rewrite for_lt_done by lia.
    replace (Z.to_nat height) with O by lia. reflexivity.
Qed.

Lemma top8_shiftr (c : Z) : Z.shiftr c 8 = top8 c.
Proof. unfold top8. now rewrite Z.shiftr_div_pow2 by lia. Qed.

(** The loops of renderImage over a raster of [2 * height] pixel rows. *)
Lemma renderRows_frame (resized : Image) (width height : Z) :
  0 <= height ->
  renderRows resized width (2 * height) =
  String.concat newline (lines (At resized) width height).
Proof.
  intros Hh. unfold renderRows.
  set (body := fun (y : Z) (sb : string) => _ +:+ reset_nl).
  pose (F := fun y : Z => String.concat "" (map (cell (At resized) y) (seqZ 0 width))).
  assert (Hrows : for_lt 0 (0 + 2 * Z.of_nat (Z.to_nat height)) 2 body "" =
    "" +:+ String.concat ""
      (map (fun k : nat => F (Z.of_nat k) +:+ reset_nl) (seq 0 (Z.to_nat height)))).
  { assert (Hhalf : forall k : nat, (0 + 2 * Z.of_nat k) / 2 = Z.of_nat k).
    { intros k. rewrite Z.add_0_l, Z.mul_comm, Z.div_mul; lia. }
    rewrite (for_lt_pieces 2 body (fun y => F (y / 2) +:+ reset_nl)); [| lia |].
    - f_equal. f_equal. apply map_ext. intros k. now rewrite Hhalf.
    - intros k s Hk. unfold body, F. rewrite Hhalf.
      rewrite (for_lt_upto width _ (cell (At resized) (Z.of_nat k))).
      + apply app_assoc.
      + intros x s0.
        destruct (Z.ltb_spec (0 + 2 * Z.of_nat k + 1) (2 * height)) as [_ | Hge]; [| lia].
        unfold cell. rewrite !top8_shiftr.
        replace (0 + 2 * Z.of_nat k) with (2 * Z.of_nat k) by lia.
        reflexivity. }
  replace (0 + 2 * Z.of_nat (Z.to_nat height)) with (2 * height) in Hrows by lia.
  rewrite Hrows.
  rewrite <- (List.map_map (fun k : nat => F (Z.of_nat k)) (fun l => l +:+ reset_nl)).
  rewrite frame_of_rows. f_equal. unfold lines. rewrite map_seqZ, List.map_map.
  apply map_ext. intros k. unfold line, F. now rewrite Z.add_0_r.
Qed.

(** *** The bytes of a line *)

Lemma cell_no_LF (s : string) : is_cell s -> mentions LF s = false.
Proof.
  intros (a & b & c & d & e & f & ->). unfold sprintf_cell.
  cbn [mentions]. rewrite !mentions_app. cbn [mentions].
  rewrite !mentions_app, !fmt_d_no_LF. reflexivity.
Qed.

Lemma cell_parts (a b c d e f : Z) (u : string) :
  sprintf_cell a b c d e f +:+ u =
  String ESC ((String "[" (String "3"
    ("8;2;" +:+ fmt_d a +:+ ";" +:+ fmt_d b +:+ ";" +:+ fmt_d c +:+ "m"))) +:+
  String ESC ((String "[" (String "4"
    ("8;2;" +:+ fmt_d d +:+ ";" +:+ fmt_d e +:+ ";" +:+ fmt_d f +:+ "m▀"))) +:+ u)).
Proof.
  unfold sprintf_cell. repeat (rewrite app_cons || rewrite app_assoc). reflexivity.
Qed.

Lemma occurrences_cons (pat : string) (c : ascii) (s : string) :
  occurrences pat (String c s) =
  ((if String.prefix pat (String c s) then 1 else 0) + occurrences pat s)%nat.
Proof. reflexivity. Qed.

(** An SGR colour sequence is passed over: it starts like a reset but
    goes on with [3] or [4], and has no further escape byte. *)
Lemma occurrences_sgr (k : ascii) (code rest : string) :
  (forall x, String.prefix reset (String ESC (String "[" (String k x))) = false) ->
  Ascii.eqb k ESC = false ->
  mentions ESC code = false ->
  occurrences reset (String ESC (String "[" (String k code) +:+ String ESC rest)) =
  occurrences reset (String ESC rest).
Proof.
  intros Hk Hesc Hcode. rewrite occurrences_cons.
  assert (Hp : String.prefix reset
                 (String ESC (String "[" (String k code) +:+ String ESC rest)) = false)
    by apply Hk.
  rewrite Hp. cbn [Nat.add]. unfold reset. apply occurrences_skip.
  cbn [mentions]. rewrite Hcode, Hesc. reflexivity.
Qed.

(** No reset sequence starts inside a cell. *)
Lemma occurrences_cell (s t : string) :
  is_cell s ->
  occurrences reset (s +:+ String ESC t) = occurrences reset (String ESC t).
Proof.
  intros (a & b & c & d & e & f & ->). rewrite cell_parts.
  rewrite !occurrences_sgr; trivial;
    try (rewrite !mentions_app, !fmt_d_no_ESC; reflexivity);
    intros x; reflexivity.
Qed.

Lemma cells_then_reset (cells : list string) :
  Forall is_cell cells ->
  exists t, String.concat "" cells +:+ reset = String ESC t.
Proof.
  intros H. destruct H as [|s l (a & b & c & d & e & f & ->) _].
  - now exists "[0m"%string.
  - rewrite concat_empty_cons, app_assoc. unfold sprintf_cell.
    rewrite app_cons. eauto.
Qed.

Lemma line_one_reset (cells : list string) :
  Forall is_cell cells ->
  occurrences reset (String.concat "" cells +:+ reset) = 1%nat.
Proof.
  induction 1 as [|s l Hs Hl IH]; [reflexivity |].
  rewrite concat_empty_cons, app_assoc.
  destruct (cells_then_reset l Hl) as [t Ht]. rewrite Ht in IH |- *.
  now rewrite occurrences_cell.
Qed.

Lemma line_no_LF (cells : list string) :
  Forall is_cell cells ->
  mentions LF (String.concat "" cells +:+ reset) = false.
Proof.
  induction 1 as [|s l Hs Hl IH]; [reflexivity |].
  rewrite concat_empty_cons, app_assoc, mentions_app, IH.
  now rewrite cell_no_LF.
Qed.

Lemma line_cells (pix : Z -> Z -> Color) (cols y : Z) :
  Forall is_cell (map (cell pix y) (seqZ 0 cols)).
Proof.
  apply List.Forall_forall. intros s Hs. apply in_map_iff in Hs as (x & <- & _).
  unfold cell, is_cell. eauto 10.
Qed.

(** A string of lines joined by newlines has the shape of a frame. *)
Lemma well_shaped_lines (pix : Z -> Z -> Color) (cols rows : Z) :
  1 <= rows ->
  well_shaped pix cols rows (String.concat newline (lines pix cols rows)).
Proof.
  intros Hrows.
  assert (Hsplit : split LF (String.concat newline (lines pix cols rows)) = lines pix cols rows).
  { apply split_concat.
    - unfold lines. intros H. apply (f_equal (@length string)) in H.
      rewrite length_map, length_seqZ in H. simpl in H. lia.
    - unfold lines. apply List.Forall_forall. intros l Hl.
      apply in_map_iff in Hl as (y & <- & _). apply line_no_LF, line_cells. }
  unfold well_shaped. rewrite Hsplit. repeat split.
  - unfold lines. now rewrite length_map, length_seqZ.
  - unfold lines. apply List.Forall_forall. intros l Hl.
    apply in_map_iff in Hl as (y & <- & _). apply line_one_reset, line_cells.
Qed.

(** *** RenderFromURL *)

Ltac run :=
  unfold RenderFromURL, probe, store, http_get, image_decode, ClearCache,
    mbind, M_bind, mret, M_ret, get_vars, set_vars, emit, http_do, time_now.

Lemma renderRows_nonpositive (resized : Image) (width pixelHeight : Z) :
  pixelHeight <= 0 -> renderRows resized width pixelHeight = ""%string.
Proof.
  intros Hh. unfold renderRows. rewrite for_lt_done by lia. reflexivity.
Qed.

Lemma double_in_int (height : Z) :
  -4611686018427387904 <= height <= 4611686018427387903 ->
  wrap (height * 2) = 2 * height.
Proof.
  intros Hh. rewrite wrap_id by (unfold in_int, min_int, max_int; lia). lia.
Qed.

Lemma renderPlaceholder_nonpositive (width height : Z) :
  height <= 0 -> renderPlaceholder width height = ""%string.
Proof.
  intros Hh. rewrite renderPlaceholder_frame. unfold placeholder.
  replace (Z.to_nat height) with O by lia. reflexivity.
Qed.

Lemma RenderFromURL_empty (E : Env) (I : Imaging) (cols rows : Z) (w : State) :
  RenderFromURL E I "" cols rows w = (Returns (placeholder cols rows, None), w).
Proof.
  unfold RenderFromURL. cbn [String.eqb]. unfold mret, M_ret.
  now rewrite renderPlaceholder_frame.
Qed.

(** C8. For every size, RenderFromURL with the empty URL sends no request
    and reads nothing: it leaves the world as it is, reports no error and
    returns the placeholder frame, [rows] lines of [cols] cells that are
    the upper half block in foreground rgb(60,60,60) on background
    rgb(40,40,40), each line closed by a reset. *)
Theorem empty_url_placeholder (E : Env) (I : Imaging) (cols rows : Z) (w : State) :
  RenderFromURL E I "" cols rows w = (Returns (placeholder cols rows, None), w) /\
  requests (trace (snd (RenderFromURL E I "" cols rows w))) = requests (trace w) /\
  gray_cell =
    String ESC ("[38;2;60;60;60m" +:+ String ESC ("[48;2;40;40;40m" +:+ "▀")).
Proof.
  rewrite RenderFromURL_empty. split; [reflexivity | split; reflexivity].
Qed.

(** C10, as amended. With no cell rows nothing is emitted: for every
    width, RenderFromURL with the empty URL and zero rows returns the
    empty string, renderPlaceholder does so for every non-positive row
    count, and renderImage for every non-positive row count whose double
    is still an [int], once the resampling has returned. *)
Theorem no_rows_empty_frame (E : Env) (I : Imaging) (img raster : Image) (w : State)
    (width h1 h2 : Z) :
  h1 <= 0 ->
  -4611686018427387904 <= h2 <= 0 ->
  resizeImage I img width (2 * h2) = Returns raster ->
  fst (RenderFromURL E I "" width 0 w) = Returns (""%string, None) /\
  renderPlaceholder width h1 = ""%string /\
  renderImage I img width h2 = Returns ""%string.
Proof.
  intros H1 H2 Hresize. split; [| split].
  - rewrite RenderFromURL_empty. reflexivity.
  - now apply renderPlaceholder_nonpositive.
  - unfold renderImage. rewrite double_in_int by lia. rewrite Hresize.
    now rewrite renderRows_nonpositive by lia.
Qed.

Lemma no_rows_empty_frame_witness :
  -1 <= 0 /\ -4611686018427387904 <= -8 <= 0 /\
  fst (RenderFromURL Sample.online Sample.imaging "" 16 0 Sample.empty_cache)
    = Returns (""%string, None) /\
  renderPlaceholder 16 (-1) = ""%string /\
  renderImage Sample.imaging Sample.orange 16 (-8) = Returns ""%string.
Proof.
  split; [lia |]. split; [lia |].
  apply (no_rows_empty_frame Sample.online Sample.imaging Sample.orange Sample.orange
           Sample.empty_cache 16 (-1) (-8)); [lia | lia | reflexivity].
Defined.

(** C10 as stated fails for renderImage: a row count of [-(2^63 - 1)] is
    non-positive, its double wraps around to [2], and one line of cells
    is rendered. *)
Lemma nonpositive_rows_rendered :
  -9223372036854775807 <= 0 /\
  renderImage Sample.imaging Sample.orange 1 (-9223372036854775807) <> Returns ""%string /\
  renderImage Sample.imaging Sample.orange 1 (-9223372036854775807) =
    Returns (sprintf_cell 255 128 0 255 128 0 +:+ reset).
Proof.
  split; [lia |]. split; [| vm_compute; reflexivity].
  vm_compute. discriminate.
Qed.

Lemma probe_vars (E : Env) (url : string) (w : State) :
  vars (snd (probe E url w)) = vars w.
Proof.
  unfold probe. run. destruct (vars w !! url) as [entry |]; [| reflexivity].
  cbn. destruct (_ <? _); reflexivity.
Qed.

(** C7, as amended. Whenever RenderFromURL gets as far as the download
    (the URL is not empty and the cache does not serve it) and the
    download itself fails, or the body of the reply, whatever its status,
    does not decode as an image, the result is the frame that the empty
    URL yields for the same size, together with an error, and the cache is
    left as it was: no entry is created. *)
Theorem failed_fetch_placeholder (E : Env) (I : Imaging) (url : string)
    (cols rows : Z) (w : State) :
  url <> ""%string ->
  fst (probe E url w) = None ->
  let reply := httpDo E (trace (snd (probe E url w))) (mkRequest "GET" url NoAuth []) in
  (exists e, reply = Err e) \/
  (exists resp e, reply = Ok resp /\ imageDecode I (Body resp) = Err e) ->
  exists frame e,
    fst (RenderFromURL E I "" cols rows w) = Returns (frame, None) /\
    fst (RenderFromURL E I url cols rows w) = Returns (frame, Some e) /\
    vars (snd (RenderFromURL E I url cols rows w)) = vars w.
Proof.
  intros Hurl Hmiss reply Hfail.
  rewrite RenderFromURL_empty. cbn [fst].
  rewrite <- renderPlaceholder_frame.
  pose proof (probe_vars E url w) as Hvars.
  unfold RenderFromURL. apply String.eqb_neq in Hurl. rewrite Hurl.
  unfold mbind, M_bind. subst reply.
  destruct (probe E url w) as [hit w1]. cbn [fst snd] in *. subst hit.
  unfold http_get, http_do.
  destruct Hfail as [(e & ->) | (resp & e & -> & Hdec)].
  - exists (renderPlaceholder cols rows), e. cbn. auto.
  - exists (renderPlaceholder cols rows), e.
    unfold image_decode, emit, mbind, M_bind, mret, M_ret. rewrite Hdec. cbn. auto.
Qed.

Lemma failed_fetch_placeholder_witness :
  exists frame e,
    fst (RenderFromURL Sample.failing Sample.no_decoder "" 16 8 Sample.empty_cache) =
      Returns (frame, None) /\
    fst (RenderFromURL Sample.failing Sample.no_decoder "http://img/1" 16 8 Sample.empty_cache) =
      Returns (frame, Some e) /\
    vars (snd (RenderFromURL Sample.failing Sample.no_decoder "http://img/1" 16 8
                 Sample.empty_cache)) = vars Sample.empty_cache.
Proof.
  apply (failed_fetch_placeholder Sample.failing Sample.no_decoder "http://img/1" 16 8
           Sample.empty_cache).
  - discriminate.
  - reflexivity.
  - right. exists (mkResponse 500 "Internal Server Error"), "image: unknown format"%string.
    split; reflexivity.
Defined.

(** C7 as stated fails. A reply with status 500 is not a failure for
    RenderFromURL, which never looks at the status: when the body of such
    a reply decodes, the image is rendered, returned without error and
    cached, so the frame is not the one of the empty URL and an entry is
    created. *)
Lemma status_not_inspected :
  let url := "http://img/1"%string in
  let w := Sample.empty_cache in
  let out := RenderFromURL Sample.failing Sample.imaging url 1 1 w in
  httpDo Sample.failing (trace (snd (probe Sample.failing url w)))
    (mkRequest "GET" url NoAuth []) = Ok (mkResponse 500 "Internal Server Error") /\
  fst out = Returns (sprintf_cell 255 128 0 255 128 0 +:+ reset, None) /\
  fst out <> fst (RenderFromURL Sample.failing Sample.imaging "" 1 1 w) /\
  (forall e, fst out <> Returns (renderPlaceholder 1 1, Some e)) /\
  vars w !! url = None /\
  is_Some (vars (snd out) !! url).
Proof.
  cbv zeta. split; [reflexivity |].
  split; [vm_compute; reflexivity |].
  split; [vm_compute; discriminate |].
  split; [intros e; vm_compute; discriminate |].
  split; [vm_compute; reflexivity | vm_compute; eauto].
Qed.

(** Scenario 4: the placeholder of 4 x 2 cells. *)
Example placeholder_4_2 :
  split LF (renderPlaceholder 4 2) =
    [gray +:+ gray +:+ gray +:+ gray +:+ reset; gray +:+ gray +:+ gray +:+ gray +:+ reset].
Proof. vm_compute. reflexivity. Qed.

(** C1, as amended. For every decoded image, every column count and
    every row count from 1 to 2^62 - 1, once the resampling has returned
    its raster, the output of renderImage is [rows] lines joined by
    newlines with nothing after the last one; each line is [cols] cells
    followed by its only reset sequence, the cell at column [x] of row [y]
    carrying the top 8 bits of the channels of the resampled pixels
    [(x, 2y)] and [(x, 2y+1)]. A call of RenderFromURL that misses the
    cache, downloads and decodes returns exactly that output for its own
    size. *)
Theorem rendered_frame_shape (I : Imaging) (img raster : Image) (cols rows : Z) :
  1 <= rows <= 4611686018427387903 ->
  resizeImage I img cols (2 * rows) = Returns raster ->
  exists frame,
    renderImage I img cols rows = Returns frame /\
    well_shaped (At raster) cols rows frame /\
    forall (E : Env) (url : string) (w : State) (resp : Response),
      url <> ""%string ->
      fst (probe E url w) = None ->
      httpDo E (trace (snd (probe E url w))) (mkRequest "GET" url NoAuth []) = Ok resp ->
      imageDecode I (Body resp) = Ok img ->
      fst (RenderFromURL E I url cols rows w) = Returns (frame, None).
Proof.
  intros Hrows Hresize.
  assert (Hframe : renderImage I img cols rows =
                   Returns (String.concat newline (lines (At raster) cols rows))).
  { unfold renderImage. rewrite double_in_int by lia. rewrite Hresize.
    now rewrite renderRows_frame by lia. }
  eexists. split; [exact Hframe |]. split; [apply well_shaped_lines; lia |].
  intros E url w resp Hurl Hmiss Hget Hdec.
  unfold RenderFromURL. apply String.eqb_neq in Hurl. rewrite Hurl.
  unfold mbind, M_bind.
  destruct (probe E url w) as [hit w1]. cbn [fst snd] in *. subst hit.
  unfold http_get, http_do. rewrite Hget.
  unfold image_decode, emit, mbind, M_bind, mret, M_ret. rewrite Hdec.
  cbn [vars trace]. rewrite Hframe. destruct (store E I url _ _). reflexivity.
Qed.

Lemma rendered_frame_shape_witness :
  exists frame,
    renderImage Sample.imaging Sample.orange 16 8 = Returns frame /\
    well_shaped (At Sample.orange) 16 8 frame /\
    fst (RenderFromURL Sample.online Sample.imaging "http://img/1" 16 8 Sample.empty_cache) =
      Returns (frame, None).
Proof.
  destruct (rendered_frame_shape Sample.imaging Sample.orange Sample.orange 16 8
              ltac:(lia) ltac:(reflexivity)) as (frame & Hframe & Hshape & Hrender).
  exists frame. split; [exact Hframe |]. split; [exact Hshape |].
  apply (Hrender Sample.online "http://img/1"%string Sample.empty_cache
           (mkResponse 200 "body"));
    [discriminate | reflexivity | reflexivity | reflexivity].
Defined.

(** C1 as stated fails twice. A frame served from the cache has the size
    of the call that stored it, not of the call that asks for it: after a
    1 x 1 rendering of a URL, a 2 x 2 request for it gets a single line.
    And for [2^63 - 1] rows the doubled row count wraps around to [-2]:
    nothing is rendered, where the contract wants that many lines. *)
Lemma frame_of_other_size :
  (let w1 := snd (RenderFromURL Sample.online Sample.imaging "http://img/1" 1 1
                    Sample.empty_cache) in
   let frame := sprintf_cell 255 128 0 255 128 0 +:+ reset in
   fst (RenderFromURL Sample.online Sample.imaging "http://img/1" 2 2 w1) =
     Returns (frame, None) /\
   fst (RenderFromURL Sample.online Sample.imaging "" 2 2 w1) <> Returns (frame, None) /\
   length (split LF frame) = 1%nat /\
   ~ exists pix, well_shaped pix 2 2 frame) /\
  (1 <= 9223372036854775807 /\
   renderImage Sample.imaging Sample.orange 1 9223372036854775807 = Returns ""%string /\
   ~ exists pix, well_shaped pix 1 9223372036854775807 ""%string).
Proof.
  split.
  - cbv zeta.
    assert (Hlen : length (split LF (sprintf_cell 255 128 0 255 128 0 +:+ reset)) = 1%nat)
      by (vm_compute; reflexivity).
    split; [vm_compute; reflexivity |].
    split; [vm_compute; discriminate |].
    split; [exact Hlen |].
    intros (pix & _ & _ & Hrows & _). rewrite Hlen in Hrows. discriminate Hrows.
  - split; [lia |]. split; [vm_compute; reflexivity |].
    intros (pix & _ & _ & Hrows & _). cbn [split length] in Hrows. lia.
Qed.

(** *** The cache *)

(** The scan keeps a key of the list and the least timestamp seen. *)
Lemma oldest_scan (l : list (string * cacheEntry)) :
  Forall (fun kv => fst kv <> ""%string) l ->
  forall (k : string) (e : cacheEntry),
    k <> ""%string ->
    exists k' e',
      fold_left oldest_step l (k, timestamp e) = (k', timestamp e') /\
      ((k', e') = (k, e) \/ In (k', e') l) /\
      timestamp e' <= timestamp e /\
      Forall (fun kv => timestamp e' <= timestamp (snd kv)) l.
Proof.
  induction 1 as [|[k1 e1] l Hk1 Hl IH]; intros k e Hk.
  - exists k, e. cbn. repeat split; auto; lia.
  - cbn [fold_left]. unfold oldest_step at 2. cbn [fst snd] in *.
    apply String.eqb_neq in Hk as Hkb. rewrite Hkb. cbn [orb].
    destruct (Z.ltb_spec (timestamp e1) (timestamp e)) as [Hlt | Hge].
    + destruct (IH k1 e1 Hk1) as (k' & e' & Hfold & Hin & Hle & Hall).
      exists k', e'. rewrite Hfold. repeat split; trivial.
      * right. destruct Hin as [Heq | Hin]; [left; congruence | right; exact Hin].
      * lia.
      * constructor; [exact Hle | exact Hall].
    + destruct (IH k e Hk) as (k' & e' & Hfold & Hin & Hle & Hall).
      exists k', e'. rewrite Hfold. repeat split; trivial.
      * destruct Hin as [Heq | Hin]; [left; exact Heq | right; right; exact Hin].
      * constructor; [cbn; lia | exact Hall].
Qed.

Lemma oldest_spec (l : list (string * cacheEntry)) :
  l <> [] ->
  Forall (fun kv => fst kv <> ""%string) l ->
  exists e, In (oldest l, e) l /\
            Forall (fun kv => timestamp e <= timestamp (snd kv)) l.
Proof.
  intros Hne Hall. destruct l as [|[k1 e1] l]; [congruence |].
  inversion Hall as [|? ? Hk1 Hl]; subst. cbn [fst] in Hk1.
  unfold oldest. cbn [fold_left]. unfold oldest_step at 2. cbn [String.eqb orb fst snd].
  destruct (oldest_scan l Hl k1 e1 Hk1) as (k' & e' & Hfold & Hin & Hle & Hmin).
  rewrite Hfold. cbn [fst]. exists e'. split.
  - destruct Hin as [Heq | Hin]; [left; congruence | right; exact Hin].
  - constructor; [exact Hle | exact Hmin].
Qed.

(** The entry that [range] and [delete] take out of a full cache. *)
Lemma evicted_entry (I : Imaging) (tr : list Event) (cache : gmap string cacheEntry) :
  range_ok I ->
  cache !! ""%string = None ->
  (0 < size cache)%nat ->
  exists e, cache !! oldest (rangeOrder I tr cache) = Some e /\
            forall k' e', cache !! k' = Some e' -> timestamp e <= timestamp e'.
Proof.
  intros Hrange Hkeys Hsize.
  pose proof (Hrange tr cache) as Hperm.
  destruct (oldest_spec (rangeOrder I tr cache)) as (e & Hin & Hmin).
  - intros Hnil. rewrite Hnil in Hperm. apply Permutation_nil in Hperm.
    apply (f_equal (@length _)) in Hperm. rewrite length_map_to_list in Hperm.
    simpl in Hperm. lia.
  - apply List.Forall_forall. intros [k e] Hin Hk. cbn in Hk. subst k.
    apply list_elem_of_In in Hin. rewrite Hperm in Hin.
    apply elem_of_map_to_list in Hin. congruence.
  - exists e. split.
    + apply elem_of_map_to_list. rewrite <- Hperm. now apply list_elem_of_In.
    + intros k' e' Hk'. apply elem_of_map_to_list in Hk'. rewrite <- Hperm in Hk'.
      apply list_elem_of_In in Hk'.
      rewrite List.Forall_forall in Hmin. apply (Hmin (k', e') Hk').
Qed.

Lemma store_vars (E : Env) (I : Imaging) (url frame : string) (w : State) :
  exists now,
    vars (snd (store E I url frame w)) =
      if cacheSize <=? Z.of_nat (size (vars w))
      then <[url := mkEntry frame now]>
             (delete (oldest (rangeOrder I (trace w) (vars w))) (vars w))
      else <[url := mkEntry frame now]> (vars w).
Proof.
  run. cbn. destruct (cacheSize <=? Z.of_nat (size (vars w))); cbn; eauto.
Qed.

(** A call either leaves the cache alone or ends in the critical section
    that stores the rendering of a non-empty URL. *)
Lemma RenderFromURL_vars (E : Env) (I : Imaging) (url : string) (width height : Z)
    (w : State) :
  vars (snd (RenderFromURL E I url width height w)) = vars w \/
  (url <> ""%string /\
   exists frame w1, vars w1 = vars w /\
     vars (snd (RenderFromURL E I url width height w)) = vars (snd (store E I url frame w1))).
Proof.
  unfold RenderFromURL. destruct (String.eqb_spec url "") as [-> | Hurl]; [now left |].
  unfold mbind, M_bind. pose proof (probe_vars E url w) as Hp.
  destruct (probe E url w) as [[frame |] w1]; cbn [snd] in Hp; [now left |].
  unfold http_get, http_do.
  destruct (httpDo E (trace w1) _) as [resp | e]; [| now left].
  unfold image_decode, emit, mbind, M_bind, mret, M_ret.
  destruct (imageDecode I (Body resp)) as [img | e]; [| now left].
  cbn [vars trace]. destruct (renderImage I img width height) as [frame |]; [| now left].
  right. split; [exact Hurl |].
  eexists frame, (mkWorld (vars w1) _). split; [exact Hp |].
  destruct (store E I url _ _) eqn:Hs. cbn [snd]. now rewrite Hs.
Qed.

Lemma store_inv (E : Env) (I : Imaging) (url frame : string) (w : State) :
  range_ok I -> url <> ""%string -> cache_inv w -> cache_inv (snd (store E I url frame w)).
Proof.
  intros Hrange Hurl [Hsize Hkeys]. unfold cache_inv.
  destruct (store_vars E I url frame w) as [now ->]. unfold cacheSize.
  destruct (Z.leb_spec 10 (Z.of_nat (size (vars w)))) as [Hfull | Hroom].
  - destruct (evicted_entry I (trace w) (vars w) Hrange Hkeys ltac:(lia)) as (e & He & _).
    split.
    + rewrite map_size_insert.
      pose proof (map_size_delete_Some (oldest (rangeOrder I (trace w) (vars w))) (vars w)
                    (ex_intro _ e He)) as Hdel.
      destruct (_ !! url); cbn; lia.
    + rewrite lookup_insert_ne by congruence.
      rewrite lookup_delete. case_decide; congruence.
  - split.
    + rewrite map_size_insert. destruct (_ !! url); cbn; lia.
    + now rewrite lookup_insert_ne by congruence.
Qed.

Lemma reachable_inv (E : Env) (I : Imaging) (w : State) :
  range_ok I -> reachable E I w -> cache_inv w.
Proof.
  intros Hrange.
  induction 1 as [| w url width height Hw IH | w url frame Hurl Hw IH | w Hw IH].
  - split; [cbn; rewrite map_size_empty; lia | apply lookup_empty].
  - destruct (RenderFromURL_vars E I url width height w)
      as [Heq | (Hurl & frame & w1 & Hw1 & Heq)].
    + unfold cache_inv. now rewrite Heq.
    + unfold cache_inv. rewrite Heq. apply store_inv; trivial.
      unfold cache_inv. now rewrite Hw1.
  - now apply store_inv.
  - split; [cbn; rewrite map_size_empty; lia | apply lookup_empty].
Qed.


Lemma full_cache_reachable : reachable Sample.online Sample.imaging Sample.full_cache.
Proof.
  unfold Sample.full_cache, Sample.render_all, Sample.first_ten. cbn [fold_left].
  repeat apply reach_render. apply reach_init.
Qed.


(** Scenario 3: after ten URLs the eleventh pushes out the first and
    nothing else. *)
Example eleventh_url_evicts_first :
  let cache := vars Sample.full_cache in
  let cache' := vars (snd (RenderFromURL Sample.online Sample.imaging "u11" 2 1
                             Sample.full_cache)) in
  size cache = 10%nat /\ size cache' = 10%nat /\
  cache' !! "u01"%string = None /\
  is_Some (cache' !! "u11"%string) /\
  Forall (fun url => is_Some (cache !! url) /\ cache' !! url = cache !! url)
         (tail Sample.first_ten).
Proof.
  cbv zeta. split; [vm_compute; reflexivity |]. split; [vm_compute; reflexivity |].
  split; [vm_compute; reflexivity |]. split; [vm_compute; eauto |].
  unfold Sample.first_ten. cbn [tail].
  repeat (constructor; [split; [vm_compute; eauto | vm_compute; reflexivity] |]).
  constructor.
Qed.

End AlbumartFacts.

(** ** The Web API client *)

Module SpotifyFacts.
Import Go GoFacts Spotify.

Ltac run :=
  unfold GetCurrentlyPlaying, GetRecentlyPlayed, ensureValidToken, refreshAccessToken,
    json_decode, mbind, M_bind, mret, M_ret, get_vars, set_vars, emit, http_do, time_now.

(** What a refresh does, by the reply of the token endpoint. *)
Lemma refresh_cases (E : Env) (J : Json) (w : State) :
  let sent := trace w ++ [EvSend (tokenRequest (vars w))] in
  match httpDo E (trace w) (tokenRequest (vars w)) with
  | Err e => refreshAccessToken E J w = (Some e, mkWorld (vars w) sent)
  | Ok resp =>
      if StatusCode resp =? 200 then
        match decodeToken J (Body resp) with
        | Err e =>
            refreshAccessToken E J w =
              (Some e, mkWorld (vars w) (sent ++ [EvJSON (Body resp)]))
        | Ok tok =>
            refreshAccessToken E J w =
              (None,
               mkWorld
                 (mkClient (clientID (vars w)) (clientSecret (vars w))
                    (refreshToken (vars w)) (AccessToken tok)
                    (timeNow E (sent ++ [EvJSON (Body resp)]) + lifetime (ExpiresIn tok)))
                 ((sent ++ [EvJSON (Body resp)]) ++ [EvNow]))
        end
      else
        refreshAccessToken E J w =
          (Some ("failed to refresh token: " +:+ fmt_d (StatusCode resp)),
           mkWorld (vars w) sent)
  end.
Proof.
  run. cbn. destruct (httpDo E (trace w) (tokenRequest (vars w))) as [resp | e]; [| reflexivity].
  destruct (StatusCode resp =? 200); cbn; [| reflexivity].
  destruct (decodeToken J (Body resp)); reflexivity.
Qed.

(** C4. A refresh that fails, because the request does not get through,
    because the token endpoint answers with another status than 200, or
    because the body of its answer is not the JSON expected, returns an
    error and leaves the client as it was; whenever refreshAccessToken
    returns an error the access token and its expiry are untouched, so
    they change on a successful refresh only. *)
Theorem failed_refresh_keeps_token (E : Env) (J : Json) (w : State) :
  let reply := httpDo E (trace w) (tokenRequest (vars w)) in
  let out := refreshAccessToken E J w in
  (((exists e, reply = Err e) \/
    (exists resp, reply = Ok resp /\ StatusCode resp <> 200) \/
    (exists resp e, reply = Ok resp /\ StatusCode resp = 200 /\
                    decodeToken J (Body resp) = Err e))
   <-> exists e, fst out = Some e) /\
  ((exists e, fst out = Some e) -> vars (snd out) = vars w) /\
  (vars (snd out) <> vars w -> fst out = None).
Proof.
  intros reply out. subst reply out.
  pose proof (refresh_cases E J w) as H. cbv zeta in H.
  destruct (httpDo E (trace w) (tokenRequest (vars w))) as [resp | e].
  - destruct (Z.eqb_spec (StatusCode resp) 200) as [H200 | H200].
    + destruct (decodeToken J (Body resp)) as [tok | e] eqn:Hdec; rewrite H; cbn [fst snd vars].
      * split; [split |].
        -- intros [(e & He) | [(r & Hr & Hs) | (r & e & Hr & Hs & Hd)]];
             [discriminate | congruence | congruence].
        -- intros (e & He). discriminate.
        -- split; [intros (e & He); discriminate | reflexivity].
      * split; [split; eauto 10 |]. split; [reflexivity | congruence].
    + rewrite H. cbn [fst snd vars].
      split; [split; eauto 10 |]. split; [reflexivity | congruence].
  - rewrite H. cbn [fst snd vars].
    split; [split; eauto 10 |]. split; [reflexivity | congruence].
Qed.

Lemma failed_refresh_keeps_token_witness :
  (exists e, fst (refreshAccessToken Sample.online Sample.garbled Sample.fresh_client) = Some e) /\
  vars (snd (refreshAccessToken Sample.online Sample.garbled Sample.fresh_client)) =
    vars Sample.fresh_client.
Proof.
  destruct (failed_refresh_keeps_token Sample.online Sample.garbled Sample.fresh_client)
    as (Hiff & Hkeep & _).
  assert (Herr : exists e,
      fst (refreshAccessToken Sample.online Sample.garbled Sample.fresh_client) = Some e).
  { apply Hiff. right. right.
    exists (mkResponse 200 "body"), "invalid character '<' looking for beginning of value"%string.
    repeat split. }
  split; [exact Herr | exact (Hkeep Herr)].
Defined.

Lemma ensure_cases (E : Env) (J : Json) (w : State) :
  ensureValidToken E J w =
    if negb (String.eqb (accessToken (vars w)) "") then
      if timeNow E (trace w) <? tokenExpiry (vars w)
      then (None, mkWorld (vars w) (trace w ++ [EvNow]))
      else refreshAccessToken E J (mkWorld (vars w) (trace w ++ [EvNow]))
    else refreshAccessToken E J w.
Proof.
  unfold ensureValidToken, mbind, M_bind, mret, M_ret, get_vars, time_now.
  destruct (negb (String.eqb (accessToken (vars w)) "")); [| reflexivity].
  destruct (timeNow E (trace w) <? tokenExpiry (vars w)); reflexivity.
Qed.

Lemma lifetime_exact (expiresIn : Z) :
  60 <= expiresIn <= 9223372096 ->
  lifetime expiresIn = (expiresIn - 60) * Second.
Proof.
  intros H. unfold lifetime, Second.
  rewrite (wrap_id (expiresIn - 60)) by (unfold in_int, min_int, max_int; lia).
  apply wrap_id. unfold in_int, min_int, max_int. lia.
Qed.

(** C2, as amended. A successful ensureValidToken went one of two ways.
    Either the token at hand was kept: then it is not empty and its expiry
    is later than the clock reading of the call, by no margin in
    particular. Or the token at hand was empty or found expired, and the
    token request of this very call was answered with status 200 and a
    body that decodes: then the access token of that response is stored,
    with expiry = now + lifetime of its expires_in, where now is the
    reading of the clock taken after decoding; for 90 <= expires_in <=
    9223372096 the lifetime is (expires_in - 60) seconds and the expiry is
    at least 30 seconds after now. *)
Theorem ensured_token_expiry (E : Env) (J : Json) (w : State) :
  fst (ensureValidToken E J w) = None ->
  let w' := snd (ensureValidToken E J w) in
  (vars w' = vars w /\
   accessToken (vars w) <> ""%string /\
   trace w' = trace w ++ [EvNow] /\
   timeNow E (trace w) < tokenExpiry (vars w')) \/
  (exists pre resp tok,
      (accessToken (vars w) = ""%string /\ pre = trace w \/
       accessToken (vars w) <> ""%string /\
       tokenExpiry (vars w) <= timeNow E (trace w) /\ pre = trace w ++ [EvNow]) /\
      httpDo E pre (tokenRequest (vars w)) = Ok resp /\
      StatusCode resp = 200 /\
      decodeToken J (Body resp) = Ok tok /\
      let tr := (pre ++ [EvSend (tokenRequest (vars w))]) ++ [EvJSON (Body resp)] in
      trace w' = tr ++ [EvNow] /\
      accessToken (vars w') = AccessToken tok /\
      tokenExpiry (vars w') = timeNow E tr + lifetime (ExpiresIn tok) /\
      (90 <= ExpiresIn tok <= 9223372096 ->
         tokenExpiry (vars w') = timeNow E tr + (ExpiresIn tok - 60) * Second /\
         timeNow E tr + 30 * Second <= tokenExpiry (vars w'))).
Proof.
  intros Hok w'. subst w'. revert Hok. rewrite ensure_cases.
  assert (Hrefresh : forall w0 : State,
    fst (refreshAccessToken E J w0) = None ->
    exists resp tok,
      httpDo E (trace w0) (tokenRequest (vars w0)) = Ok resp /\
      StatusCode resp = 200 /\
      decodeToken J (Body resp) = Ok tok /\
      let tr := (trace w0 ++ [EvSend (tokenRequest (vars w0))]) ++ [EvJSON (Body resp)] in
      trace (snd (refreshAccessToken E J w0)) = tr ++ [EvNow] /\
      accessToken (vars (snd (refreshAccessToken E J w0))) = AccessToken tok /\
      tokenExpiry (vars (snd (refreshAccessToken E J w0))) =
        timeNow E tr + lifetime (ExpiresIn tok) /\
      (90 <= ExpiresIn tok <= 9223372096 ->
         tokenExpiry (vars (snd (refreshAccessToken E J w0))) =
           timeNow E tr + (ExpiresIn tok - 60) * Second /\
         timeNow E tr + 30 * Second <= tokenExpiry (vars (snd (refreshAccessToken E J w0))))).
  { intros w0 Hnone. pose proof (refresh_cases E J w0) as H. cbv zeta in H.
    destruct (httpDo E (trace w0) (tokenRequest (vars w0))) as [resp | e];
      [| rewrite H in Hnone; discriminate].
    destruct (Z.eqb_spec (StatusCode resp) 200) as [H200 | H200];
      [| rewrite H in Hnone; discriminate].
    destruct (decodeToken J (Body resp)) as [tok | e] eqn:Hdec;
      [| rewrite H in Hnone; discriminate].
    rewrite H. cbn [fst snd vars trace accessToken tokenExpiry].
    exists resp, tok. cbv zeta.
    split; [reflexivity |]. split; [exact H200 |]. split; [exact Hdec |].
    split; [reflexivity |]. split; [reflexivity |]. split; [reflexivity |].
    intros Hrange. rewrite lifetime_exact by lia. split; [reflexivity |].
    unfold Second. lia. }
  destruct (String.eqb_spec (accessToken (vars w)) "") as [Hempty | Hfull]; cbn [negb].
  - intros Hok. right. destruct (Hrefresh w Hok) as (resp & tok & Hrest).
    exists (trace w), resp, tok. split; [left; auto | exact Hrest].
  - destruct (Z.ltb_spec (timeNow E (trace w)) (tokenExpiry (vars w))) as [Hvalid | Hstale].
    + intros _. left. cbn. auto.
    + intros Hok. right.
      destruct (Hrefresh (mkWorld (vars w) (trace w ++ [EvNow])) Hok) as (resp & tok & Hrest).
      exists (trace w ++ [EvNow]), resp, tok. split; [right; auto | exact Hrest].
Qed.

Lemma ensured_token_expiry_witness :
  let w' := snd (ensureValidToken Sample.nothing_playing Sample.json Sample.fresh_client) in
  accessToken (vars w') = "BQD"%string /\
  tokenExpiry (vars w') = 2 + 3540 * Second.
Proof.
  destruct (ensured_token_expiry Sample.nothing_playing Sample.json Sample.fresh_client
              ltac:(reflexivity))
    as [(_ & Hne & _) | (pre & resp & tok & _)].
  - exfalso. apply Hne. reflexivity.
  - cbv zeta. split; [reflexivity | reflexivity].
Defined.

(** C2 as stated fails. A token granted for 90 seconds at 0 s expires at
    30 s; the call at 29 s finds it valid and succeeds with one second to
    go. And a token granted for 9223372097 seconds, which is more than
    90, gets a lifetime that has wrapped around: its expiry lies before
    the refresh. *)
Lemma expiry_without_margin :
  (let w1 := snd (ensureValidToken Sample.slow_clock Sample.short_lived Sample.fresh_client) in
   let now := timeNow Sample.slow_clock (trace w1) in
   let out := ensureValidToken Sample.slow_clock Sample.short_lived w1 in
   fst (ensureValidToken Sample.slow_clock Sample.short_lived Sample.fresh_client) = None /\
   fst out = None /\
   now = 29 * Second /\
   tokenExpiry (vars (snd out)) = 30 * Second /\
   ~ now + 30 * Second <= tokenExpiry (vars (snd out))) /\
  (let out := refreshAccessToken Sample.online Sample.long_lived Sample.fresh_client in
   let now := timeNow Sample.online
                (removelast (trace (snd out))) in
   90 <= 9223372097 /\
   fst out = None /\
   tokenExpiry (vars (snd out)) <> now + (9223372097 - 60) * Second /\
   tokenExpiry (vars (snd out)) < now).
Proof.
  split.
  - cbv zeta. repeat split; try (vm_compute; reflexivity).
    vm_compute. intros H. apply H. reflexivity.
  - cbv zeta. split; [lia |]. split; [vm_compute; reflexivity |].
    split; [vm_compute; discriminate | vm_compute; reflexivity].
Qed.

Lemma contains_suffix (pre s : string) : contains (pre +:+ s) s.
Proof. exists pre, ""%string. now rewrite app_nil_r. Qed.

Lemma trackOf_fields (it : itemJSON) (playing : bool) :
  trackOf it playing =
    mkTrack (item_name it) (hd ""%string (item_artists it)) (album_name (item_album it))
            (hd ""%string (album_images (item_album it))) playing.
Proof. unfold trackOf. destruct (item_artists it), (album_images (item_album it)); reflexivity. Qed.

(** GetCurrentlyPlaying once the token is ensured and the API has replied. *)
Lemma currently_playing_reply (E : Env) (J : Json) (w : State) (resp : Response) :
  let w0 := mkWorld (vars w) (trace w ++ [EvCall "GetCurrentlyPlaying"]) in
  let w1 := snd (ensureValidToken E J w0) in
  let req := apiRequest currentlyPlayingURL (vars w1) in
  fst (ensureValidToken E J w0) = None ->
  httpDo E (trace w1) req = Ok resp ->
  GetCurrentlyPlaying E J w =
    if StatusCode resp =? 204 then (None, None, mkWorld (vars w1) (trace w1 ++ [EvSend req]))
    else if negb (StatusCode resp =? 200) then
      (None, Some ("spotify API error: " +:+ fmt_d (StatusCode resp)),
       mkWorld (vars w1) (trace w1 ++ [EvSend req]))
    else
      (match decodeCurrentlyPlaying J (Body resp) with
       | Err e => (None, Some e)
       | Ok data =>
           match cp_item data with
           | None => (None, None)
           | Some it => (Some (trackOf it (cp_is_playing data)), None)
           end
       end,
       mkWorld (vars w1) ((trace w1 ++ [EvSend req]) ++ [EvJSON (Body resp)])).
Proof.
  intros w0 w1 req Htok Hresp. subst w1 req.
  unfold GetCurrentlyPlaying.
  unfold mbind at 1, M_bind at 1, emit at 1. fold w0.
  unfold mbind at 1, M_bind at 1.
  destruct (ensureValidToken E J w0) as [err w1]. cbn [fst snd] in *. subst err.
  unfold mbind, M_bind, get_vars, http_do. rewrite Hresp.
  destruct (StatusCode resp =? 204); [reflexivity |].
  destruct (StatusCode resp =? 200); cbn [negb]; [| reflexivity].
  unfold json_decode, emit, mbind, M_bind, mret, M_ret. cbn [vars trace].
  destruct (decodeCurrentlyPlaying J (Body resp)) as [data | e]; [| reflexivity].
  destruct (cp_item data); reflexivity.
Qed.

(** C5. Once the token is ensured and the API has answered,
    GetCurrentlyPlaying returns no track and no error on status 204, and
    the body of that answer is never given to the JSON decoder; on 200
    with an absent item it returns no track and no error as well; on 200
    with an item it returns the track made of the item's name, the name of
    its first artist or [""], the name of its album, the URL of the
    album's first image or [""], and the is_playing flag of the response;
    any other status yields an error whose text contains the status. *)
Theorem currently_playing_cases (E : Env) (J : Json) (w : State) (resp : Response) :
  let w0 := mkWorld (vars w) (trace w ++ [EvCall "GetCurrentlyPlaying"]) in
  let w1 := snd (ensureValidToken E J w0) in
  let req := apiRequest currentlyPlayingURL (vars w1) in
  let out := GetCurrentlyPlaying E J w in
  fst (ensureValidToken E J w0) = None ->
  httpDo E (trace w1) req = Ok resp ->
  (StatusCode resp = 204 ->
     fst out = (None, None) /\
     trace (snd out) = trace w1 ++ [EvSend req] /\
     ~ In (EvJSON (Body resp)) (skipn (length (trace w1)) (trace (snd out)))) /\
  (StatusCode resp = 200 ->
     forall data, decodeCurrentlyPlaying J (Body resp) = Ok data ->
       (cp_item data = None -> fst out = (None, None)) /\
       (forall it, cp_item data = Some it ->
          fst out =
            (Some (mkTrack (item_name it) (hd ""%string (item_artists it))
                           (album_name (item_album it))
                           (hd ""%string (album_images (item_album it)))
                           (cp_is_playing data)), None))) /\
  (StatusCode resp <> 204 -> StatusCode resp <> 200 ->
     exists msg, fst out = (None, Some msg) /\ contains msg (fmt_d (StatusCode resp))).
Proof.
  intros w0 w1 req out Htok Hresp. subst out.
  rewrite (currently_playing_reply E J w resp Htok Hresp). fold w0 w1 req.
  split; [| split].
  - intros ->. cbn [Z.eqb Pos.eqb fst snd trace]. repeat split.
    rewrite skipn_app, skipn_all, Nat.sub_diag. cbn. intros [H | []]. discriminate H.
  - intros -> data Hdata. cbn [Z.eqb Pos.eqb negb fst]. rewrite Hdata. split.
    + intros ->. reflexivity.
    + intros it ->. now rewrite trackOf_fields.
  - intros H204 H200.
    destruct (Z.eqb_spec (StatusCode resp) 204) as [| _]; [contradiction |].
    destruct (Z.eqb_spec (StatusCode resp) 200) as [| _]; [contradiction |].
    cbn [negb fst]. eexists. split; [reflexivity | apply contains_suffix].
Qed.

Lemma currently_playing_cases_witness :
  fst (GetCurrentlyPlaying Sample.nothing_playing Sample.json Sample.fresh_client)
    = (None, None) /\
  requests (trace (snd (GetCurrentlyPlaying Sample.nothing_playing Sample.json
                          Sample.fresh_client))) =
    [tokenRequest (vars Sample.fresh_client);
     mkRequest "GET" currentlyPlayingURL (Bearer "BQD") []].
Proof.
  destruct (currently_playing_cases Sample.nothing_playing Sample.json Sample.fresh_client
              (mkResponse 204 "") ltac:(reflexivity) ltac:(reflexivity))
    as ((Hout & Htrace & _) & _); [reflexivity |].
  split; [exact Hout |]. rewrite Htrace. reflexivity.
Defined.

End SpotifyFacts.

(** ** The session *)

Module SessionFacts.
Import Go GoFacts Spotify Session SpotifyFacts.

Ltac quiet_tail :=
  repeat rewrite <- List.app_assoc; cbn [List.app];
  eexists; split; [reflexivity | repeat constructor; discriminate].

(** Below an API operation only requests, decodings and clock readings
    are recorded. *)
Lemma refresh_trace (E : Env) (J : Json) (w : Spotify.State) :
  exists evs, trace (snd (refreshAccessToken E J w)) = trace w ++ evs /\ quiet evs.
Proof.
  pose proof (refresh_cases E J w) as H. cbv zeta in H.
  destruct (httpDo E (trace w) (tokenRequest (vars w))) as [resp | e].
  - destruct (StatusCode resp =? 200).
    + destruct (decodeToken J (Body resp)); rewrite H; cbn [snd trace]; quiet_tail.
    + rewrite H. cbn [snd trace]. quiet_tail.
  - rewrite H. cbn [snd trace]. quiet_tail.
Qed.

Lemma ensure_trace (E : Env) (J : Json) (w : Spotify.State) :
  exists evs, trace (snd (ensureValidToken E J w)) = trace w ++ evs /\ quiet evs.
Proof.
  rewrite ensure_cases.
  destruct (negb _); [| apply refresh_trace].
  destruct (_ <? _); [cbn [snd trace]; quiet_tail |].
  destruct (refresh_trace E J (mkWorld (vars w) (trace w ++ [EvNow]))) as (evs & -> & Hq).
  cbn [trace]. exists (EvNow :: evs). rewrite <- List.app_assoc. split; [reflexivity |].
  constructor; [discriminate | exact Hq].
Qed.

Lemma currently_playing_trace (E : Env) (J : Json) (w : Spotify.State) :
  exists evs,
    trace (snd (GetCurrentlyPlaying E J w)) =
      trace w ++ EvCall "GetCurrentlyPlaying" :: evs /\ quiet evs.
Proof.
  unfold GetCurrentlyPlaying.
  unfold mbind at 1, M_bind at 1, emit at 1.
  unfold mbind at 1, M_bind at 1.
  destruct (ensure_trace E J
              (mkWorld (vars w) (trace w ++ [EvCall "GetCurrentlyPlaying"])))
    as (evs & Htr & Hq).
  destruct (ensureValidToken E J _) as [[err |] w1]; cbn [snd trace] in Htr.
  - cbn. rewrite Htr, <- !List.app_assoc. eauto.
  - unfold json_decode, get_vars, http_do, emit.
    unfold mbind, M_bind, mret, M_ret.
    assert (Hext : forall tr, (exists more, tr = trace w1 ++ more /\ quiet more) ->
              exists evs', tr = trace w ++ EvCall "GetCurrentlyPlaying" :: evs' /\ quiet evs').
    { intros tr (more & -> & Hmore). exists (evs ++ more). rewrite Htr, <- !List.app_assoc.
      split; [reflexivity | now apply Forall_app]. }
    destruct (httpDo E (trace w1) _) as [resp | e]; cbn [snd trace];
      [| apply Hext; quiet_tail].
    destruct (StatusCode resp =? 204); cbn [snd trace]; [apply Hext; quiet_tail |].
    destruct (negb (StatusCode resp =? 200)); cbn [snd trace vars];
      [apply Hext; quiet_tail |].
    destruct (decodeCurrentlyPlaying J (Body resp)) as [data | e]; cbn [snd trace].
    + destruct (cp_item data); cbn [snd trace]; apply Hext; quiet_tail.
    + apply Hext; quiet_tail.
Qed.

Lemma recently_played_trace (E : Env) (J : Json) (w : Spotify.State) :
  exists evs,
    trace (snd (GetRecentlyPlayed E J w)) =
      trace w ++ EvCall "GetRecentlyPlayed" :: evs /\ quiet evs.
Proof.
  unfold GetRecentlyPlayed.
  unfold mbind at 1, M_bind at 1, emit at 1.
  unfold mbind at 1, M_bind at 1.
  destruct (ensure_trace E J
              (mkWorld (vars w) (trace w ++ [EvCall "GetRecentlyPlayed"])))
    as (evs & Htr & Hq).
  destruct (ensureValidToken E J _) as [[err |] w1]; cbn [snd trace] in Htr.
  - cbn. rewrite Htr, <- !List.app_assoc. eauto.
  - unfold json_decode, get_vars, http_do, emit.
    unfold mbind, M_bind, mret, M_ret.
    assert (Hext : forall tr, (exists more, tr = trace w1 ++ more /\ quiet more) ->
              exists evs', tr = trace w ++ EvCall "GetRecentlyPlayed" :: evs' /\ quiet evs').
    { intros tr (more & -> & Hmore). exists (evs ++ more). rewrite Htr, <- !List.app_assoc.
      split; [reflexivity | now apply Forall_app]. }
    destruct (httpDo E (trace w1) _) as [resp | e]; cbn [snd trace];
      [| apply Hext; quiet_tail].
    destruct (negb (StatusCode resp =? 200)); cbn [snd trace vars];
      [apply Hext; quiet_tail |].
    destruct (decodeRecentlyPlayed J (Body resp)) as [data | e]; cbn [snd trace].
    + destruct (rp_items data); cbn [snd trace]; apply Hext; quiet_tail.
    + apply Hext; quiet_tail.
Qed.

Lemma fetchWith_cases (E : Env) (J : Json) (w0 : Spotify.State) :
  let first := GetCurrentlyPlaying E J w0 in
  let second := GetRecentlyPlayed E J (snd first) in
  fetchWith E J w0 =
    match fst first with
    | (_, Some e) => (mkTrackMsg None (Some e), snd first)
    | (Some t, None) => (mkTrackMsg (Some t) None, snd first)
    | (None, None) =>
        (mkTrackMsg (stopped <$> fst (fst second)) (snd (fst second)), snd second)
    end.
Proof.
  intros first second. subst first second. unfold fetchWith.
  unfold mbind at 1, M_bind at 1.
  destruct (GetCurrentlyPlaying E J w0) as [[[t |] [e |]] w1]; cbn [fst snd]; try reflexivity.
  unfold mbind, M_bind, mret, M_ret.
  destruct (GetRecentlyPlayed E J w1) as [[[t |] err] w2]; reflexivity.
Qed.

(** C6, as amended. In a process that has a client, every fetch calls
    GetCurrentlyPlaying first. Exactly when that returns no track and no
    error, GetRecentlyPlayed is called, and its result is passed on with
    is_playing forced to false; otherwise the first result is passed on
    and GetRecentlyPlayed is not called. So when nothing is playing and
    the history yields a track, the model observes that track, with its
    name and artwork URL, as not playing. *)
Theorem fetch_falls_back (E : Env) (J : Json) (w : Session.State) (c : Client)
    (m : model) :
  vars w = Some c ->
  let first := GetCurrentlyPlaying E J (mkWorld c (trace w)) in
  let second := GetRecentlyPlayed E J (snd first) in
  let out := fetchTrack E J w in
  (exists evs, trace (snd first) = trace w ++ EvCall "GetCurrentlyPlaying" :: evs /\
               quiet evs) /\
  (fst first = (None, None) ->
     fst out = mkTrackMsg (stopped <$> fst (fst second)) (snd (fst second)) /\
     (exists evs, trace (snd out) =
                    trace (snd first) ++ EvCall "GetRecentlyPlayed" :: evs /\ quiet evs) /\
     vars (snd out) = Some (vars (snd second))) /\
  (fst first <> (None, None) ->
     fst out = mkTrackMsg (match snd (fst first) with
                           | Some _ => None
                           | None => fst (fst first)
                           end) (snd (fst first)) /\
     trace (snd out) = trace (snd first)) /\
  (fst first = (None, None) ->
     forall t, fst second = (Some t, None) ->
       currentTrack (fst (Update m (TrackMsg (fst out)))) =
         Some (mkTrack (Name t) (Artist t) (Album t) (ArtworkURL t) false)).
Proof.
  intros Hc first second out.
  assert (Hout : out =
    (fst (fetchWith E J (mkWorld c (trace w))),
     mkWorld (Some (vars (snd (fetchWith E J (mkWorld c (trace w))))))
             (trace (snd (fetchWith E J (mkWorld c (trace w))))))).
  { subst out. unfold fetchTrack. rewrite Hc.
    destruct (fetchWith E J (mkWorld c (trace w))). reflexivity. }
  pose proof (fetchWith_cases E J (mkWorld c (trace w))) as Hcases. cbv zeta in Hcases.
  fold first in Hcases. fold second in Hcases.
  destruct (currently_playing_trace E J (mkWorld c (trace w))) as (evs & Htr & Hq).
  fold first in Htr. cbn [trace] in Htr.
  destruct (recently_played_trace E J (snd first)) as (evs2 & Htr2 & Hq2).
  fold second in Htr2.
  rewrite Hout, Hcases. clear Hout Hcases.
  destruct (fst first) as [[t |] [e |]] eqn:Hfirst; cbn [fst snd vars trace].
  - split; [eauto |]. split; [discriminate |]. split; [auto | discriminate].
  - split; [eauto |]. split; [discriminate |]. split; [auto | discriminate].
  - split; [eauto |]. split; [discriminate |]. split; [auto | discriminate].
  - split; [eauto |]. split; [eauto |]. split; [congruence |].
    intros _ t Ht. rewrite Ht. reflexivity.
Qed.

(** Scenario 1: nothing is playing, the history has "Fade". *)
Lemma fetch_falls_back_witness :
  currentTrack
    (fst (Update (mkModel 80 24 None)
            (TrackMsg (fst (fetchTrack Sample.nothing_playing Sample.json Sample.configured)))))
  = Some (mkTrack "Fade" "Blur" "13" "http://img/1" false).
Proof.
  destruct (fetch_falls_back Sample.nothing_playing Sample.json Sample.configured
              (NewClient "id" "secret" "refresh") (mkModel 80 24 None) ltac:(reflexivity))
    as (_ & _ & _ & Hobserved).
  apply (Hobserved ltac:(reflexivity) (mkTrack "Fade" "Blur" "13" "http://img/1" false)).
  reflexivity.
Defined.

(** C6 as stated fails for a process started without credentials:
    fetchTrack returns at once, without any call and without a track. *)
Lemma fetch_without_client :
  fst (fetchTrack Sample.nothing_playing Sample.json Sample.unconfigured) = mkTrackMsg None None /\
  trace (snd (fetchTrack Sample.nothing_playing Sample.json Sample.unconfigured)) = [] /\
  ~ In (EvCall "GetCurrentlyPlaying")
       (trace (snd (fetchTrack Sample.nothing_playing Sample.json Sample.unconfigured))).
Proof.
  split; [reflexivity |]. split; [reflexivity |]. intros [].
Qed.

Lemma length_substring (n : nat) (s : string) :
  (n <= String.length s)%nat -> String.length (String.substring 0 n s) = n.
Proof.
  revert s. induction n as [|n IH]; intros s Hn.
  - destruct s; reflexivity.
  - destruct s as [|c s]; [simpl in Hn; lia |].
    simpl in *. rewrite IH by lia. reflexivity.
Qed.

(** C9, as amended. In the widget, a track name of more than 26 bytes, a
    name of 30 bytes for one, is shown as its first 23 bytes followed by
    three full stops ["..."], 26 bytes in all; a name of at most 26 bytes
    is shown as it is. *)
Theorem long_name_clipped (m : model) (t : Track) :
  currentTrack m = Some t ->
  exists wt,
    renderSpotifyWidget m = Some wt /\
    (26 < len (Name t) ->
       trackName wt = slice_to (Name t) 23 +:+ "..." /\ len (trackName wt) = 26) /\
    (len (Name t) <= 26 -> trackName wt = Name t).
Proof.
  intros Ht. unfold renderSpotifyWidget. rewrite Ht. eexists. split; [reflexivity |].
  cbn [trackName]. unfold clip. split.
  - intros Hlong. destruct (Z.ltb_spec 26 (len (Name t))) as [_ | H]; [| lia].
    split; [reflexivity |]. unfold len, slice_to in *.
    rewrite length_app, length_substring by lia. reflexivity.
  - intros Hshort. destruct (Z.ltb_spec 26 (len (Name t))) as [H | _]; [lia | reflexivity].
Qed.

Lemma long_name_clipped_witness :
  exists wt,
    renderSpotifyWidget
      (mkModel 80 24 (Some (mkTrack Sample.long_name "Blur" "13" "" true))) = Some wt /\
    trackName wt = "abcdefghijklmnopqrstuvw..."%string.
Proof.
  destruct (long_name_clipped
              (mkModel 80 24 (Some (mkTrack Sample.long_name "Blur" "13" "" true)))
              (mkTrack Sample.long_name "Blur" "13" "" true) ltac:(reflexivity))
    as (wt & Hwt & Hlong & _).
  exists wt. split; [exact Hwt |].
  destruct (Hlong ltac:(reflexivity)) as [-> _]. reflexivity.
Defined.

(** C9 as stated fails: the 30-byte name is not followed by the one
    character ["…"] but by three full stops. *)
Lemma clipped_with_full_stops :
  len Sample.long_name = 30 /\
  (trackName <$> renderSpotifyWidget
     (mkModel 80 24 (Some (mkTrack Sample.long_name "Blur" "13" "" true)))) =
    Some "abcdefghijklmnopqrstuvw..."%string /\
  (trackName <$> renderSpotifyWidget
     (mkModel 80 24 (Some (mkTrack Sample.long_name "Blur" "13" "" true)))) <>
    Some (slice_to Sample.long_name 23 +:+ "…").
Proof.
  split; [reflexivity |]. split; [reflexivity |]. vm_compute. discriminate.
Qed.

End SessionFacts.


(** ** More on the cache *)

Module CacheFacts.
Import Go GoFacts Albumart Frame CacheRuns AlbumartFacts Lookup.

Lemma requests_app (a b : list Event) : requests (a ++ b) = requests a ++ requests b.
Proof. unfold requests. apply omap_app. Qed.

Lemma probe_cases (E : Env) (url : string) (w : State) :
  probe E url w =
    match vars w !! url with
    | Some entry =>
        (if timeNow E (trace w) - timestamp entry <? cacheTTL
         then Some (rendered entry) else None,
         mkWorld (vars w) (trace w ++ [EvNow]))
    | None => (None, w)
    end.
Proof.
  unfold probe, mbind, M_bind, mret, M_ret, get_vars, time_now.
  destruct (vars w !! url) as [entry |]; [| reflexivity].
  destruct (_ <? _); reflexivity.
Qed.

Lemma probe_requests (E : Env) (url : string) (w : State) :
  requests (trace (snd (probe E url w))) = requests (trace w).
Proof.
  rewrite probe_cases. destruct (vars w !! url); [| reflexivity].
  cbn [snd trace]. rewrite requests_app. cbn. apply List.app_nil_r.
Qed.

Lemma probe_hit (E : Env) (url : string) (w : State) :
  fst (probe E url w) =
    if fresh E url w then rendered <$> (vars w !! url) else None.
Proof.
  rewrite probe_cases. unfold fresh. destruct (vars w !! url) as [entry |]; [| reflexivity].
  cbn [fst]. destruct (_ <? _); reflexivity.
Qed.

Lemma store_requests (E : Env) (I : Imaging) (url frame : string) (w : State) :
  requests (trace (snd (store E I url frame w))) = requests (trace w).
Proof.
  unfold store, mbind, M_bind, mret, M_ret, get_vars, set_vars, emit, time_now.
  cbn. destruct (cacheSize <=? Z.of_nat (size (vars w))); cbn;
    rewrite ?requests_app; cbn; now rewrite ?List.app_nil_r.
Qed.

Lemma sent_by_render (E : Env) (I : Imaging) (url : string) (width height : Z)
    (w : State) :
  requests (trace (snd (RenderFromURL E I url width height w))) =
    requests (trace w) ++
    (if String.eqb url "" || fresh E url w then [] else [GET url]).
Proof.
  unfold RenderFromURL.
  destruct (String.eqb_spec url "") as [-> | Hurl]; cbn [orb].
  { cbn. now rewrite List.app_nil_r. }
  unfold mbind, M_bind.
  pose proof (probe_requests E url w) as Hreq. pose proof (probe_hit E url w) as Hhit.
  destruct (probe E url w) as [hit w1]. cbn [fst snd] in *.
  destruct (fresh E url w) eqn:Hfresh.
  - unfold fresh in Hfresh. destruct (vars w !! url) as [entry |]; [| discriminate].
    subst hit. cbn. now rewrite Hreq, List.app_nil_r.
  - subst hit. unfold http_get, http_do, GET.
    assert (Hsent : requests (trace w1 ++ [EvSend (mkRequest "GET" url NoAuth [])]) =
                    requests (trace w) ++ [mkRequest "GET" url NoAuth []]).
    { rewrite requests_app, Hreq. reflexivity. }
    destruct (httpDo E (trace w1) _) as [resp | e]; [| exact Hsent].
    unfold image_decode, emit, mbind, M_bind, mret, M_ret. cbn [vars trace].
    assert (Hdec : requests ((trace w1 ++ [EvSend (mkRequest "GET" url NoAuth [])]) ++
                             [EvImage (Body resp)]) =
                   requests (trace w) ++ [mkRequest "GET" url NoAuth []]).
    { rewrite requests_app, Hsent. cbn. apply List.app_nil_r. }
    destruct (imageDecode I (Body resp)) as [img | e]; [| exact Hdec].
    destruct (renderImage I img width height) as [frame |]; [| exact Hdec].
    pose proof (store_requests E I url frame
                  (mkWorld (vars w1) ((trace w1 ++ [EvSend (mkRequest "GET" url NoAuth [])]) ++
                             [EvImage (Body resp)]))) as Hstore.
    destruct (store E I url frame _) as [u w2]. cbn [snd trace] in *.
    now rewrite Hstore.
Qed.

(** The four ways a call with a non-empty URL can go. *)
Lemma render_paths (E : Env) (I : Imaging) (url : string) (width height : Z) (w : State) :
  url <> ""%string ->
  let out := RenderFromURL E I url width height w in
  (exists entry,
      vars w !! url = Some entry /\ fresh E url w = true /\
      out = (Returns (rendered entry, None), mkWorld (vars w) (trace w ++ [EvNow]))) \/
  (fresh E url w = false /\
   exists e, fst out = Returns (renderPlaceholder width height, Some e) /\
             vars (snd out) = vars w) \/
  (fresh E url w = false /\ fst out = Panics /\ vars (snd out) = vars w) \/
  (fresh E url w = false /\
   exists img frame w1,
     renderImage I img width height = Returns frame /\ vars w1 = vars w /\
     fst out = Returns (frame, None) /\ snd out = snd (store E I url frame w1)).
Proof.
  intros Hurl out. subst out. unfold RenderFromURL.
  apply String.eqb_neq in Hurl. rewrite Hurl.
  unfold mbind, M_bind. rewrite probe_cases. unfold fresh.
  destruct (vars w !! url) as [entry |] eqn:Hentry.
  - destruct (timeNow E (trace w) - timestamp entry <? cacheTTL) eqn:Hage.
    + left. exists entry. auto.
    + right. unfold http_get, http_do. cbn [vars trace].
      destruct (httpDo E _ _) as [resp | e]; [| left; split; [reflexivity | eauto]].
      unfold image_decode, emit, mbind, M_bind, mret, M_ret. cbn [vars trace].
      destruct (imageDecode I (Body resp)) as [img | e]; [| left; split; [reflexivity | eauto]].
      destruct (renderImage I img width height) as [frame |] eqn:Hrender;
        [| right; left; auto].
      right. right. split; [reflexivity |].
      match goal with
      | |- context [store E I url frame ?W] => exists img, frame, W
      end.
      split; [exact Hrender |].
      split; [reflexivity |]. destruct (store E I url frame _). split; reflexivity.
  - right. unfold http_get, http_do.
    destruct (httpDo E _ _) as [resp | e]; [| left; split; [reflexivity | eauto]].
    unfold image_decode, emit, mbind, M_bind, mret, M_ret. cbn [vars trace].
    destruct (imageDecode I (Body resp)) as [img | e]; [| left; split; [reflexivity | eauto]].
    destruct (renderImage I img width height) as [frame |] eqn:Hrender;
      [| right; left; auto].
    right. right. split; [reflexivity |].
    match goal with
    | |- context [store E I url frame ?W] => exists img, frame, W
    end.
    split; [exact Hrender |].
    split; [reflexivity |]. destruct (store E I url frame _). split; reflexivity.
Qed.

(** X1. A fresh entry is served as it is: for a URL whose entry is younger
    than the TTL, RenderFromURL returns the stored frame and no error,
    whatever size is asked for; it reads the clock once, sends nothing and
    leaves the cache, timestamps included, as it was. *)
Theorem fresh_entry_served (E : Env) (I : Imaging) (url : string) (width height : Z)
    (w : State) (entry : cacheEntry) :
  url <> ""%string ->
  vars w !! url = Some entry ->
  timeNow E (trace w) - timestamp entry < cacheTTL ->
  RenderFromURL E I url width height w =
    (Returns (rendered entry, None), mkWorld (vars w) (trace w ++ [EvNow])).
Proof.
  intros Hurl Hentry Hage.
  assert (Hfresh : fresh E url w = true).
  { unfold fresh. rewrite Hentry. now apply Z.ltb_lt. }
  destruct (render_paths E I url width height w Hurl)
    as [(entry' & Hentry' & _ & Hout) | [(Hstale & _) | [(Hstale & _) | (Hstale & _)]]];
    try congruence.
Qed.

Lemma fresh_entry_served_witness :
  RenderFromURL Sample.online Sample.imaging "http://img/1" 16 8 Sample.one_entry =
    (Returns (sprintf_cell 255 128 0 255 128 0 +:+ reset, None),
     mkWorld (vars Sample.one_entry) (trace Sample.one_entry ++ [EvNow])).
Proof.
  apply (fresh_entry_served Sample.online Sample.imaging "http://img/1" 16 8 Sample.one_entry
           (mkEntry (sprintf_cell 255 128 0 255 128 0 +:+ reset) 2));
    [discriminate | vm_compute; reflexivity | vm_compute; reflexivity].
Defined.

(** X2. Whenever RenderFromURL reports an error, its frame is the
    placeholder of the size asked for, the URL was not empty, and the cache
    is left as it was. *)
Theorem error_means_placeholder (E : Env) (I : Imaging) (url : string) (width height : Z)
    (w : State) (frame : string) (e : error) :
  fst (RenderFromURL E I url width height w) = Returns (frame, Some e) ->
  url <> ""%string /\
  frame = placeholder width height /\
  vars (snd (RenderFromURL E I url width height w)) = vars w.
Proof.
  intros Hout.
  destruct (String.eqb_spec url "") as [-> | Hurl].
  { rewrite RenderFromURL_empty in Hout. discriminate Hout. }
  split; [exact Hurl |]. rewrite <- renderPlaceholder_frame.
  destruct (render_paths E I url width height w Hurl)
    as [(entry & _ & _ & Hhit) | [(_ & e' & Hfail & Hvars) | [(_ & Hpanic & _) |
        (_ & img & frame' & w1 & _ & _ & Hok & _)]]].
  - rewrite Hhit in Hout. discriminate Hout.
  - rewrite Hfail in Hout. injection Hout as <- _. auto.
  - rewrite Hpanic in Hout. discriminate Hout.
  - rewrite Hok in Hout. discriminate Hout.
Qed.

Lemma error_means_placeholder_witness :
  "http://img/1"%string <> ""%string /\
  renderPlaceholder 2 1 = placeholder 2 1 /\
  vars (snd (RenderFromURL Sample.failing Sample.no_decoder "http://img/1" 2 1
               Sample.empty_cache)) = vars Sample.empty_cache.
Proof.
  apply (error_means_placeholder Sample.failing Sample.no_decoder "http://img/1" 2 1
           Sample.empty_cache (renderPlaceholder 2 1) "image: unknown format"%string).
  vm_compute. reflexivity.
Defined.

(** X3. Miss, then hit. After a call for a non-empty URL has returned a
    frame without error, the cache holds that frame under the URL; and a
    second call for the URL, of any size, made while the entry is younger
    than the TTL returns the same frame and sends no request. *)
Theorem miss_then_hit (E : Env) (I : Imaging) (url : string)
    (width height width' height' : Z) (w : State) (frame : string) :
  url <> ""%string ->
  fst (RenderFromURL E I url width height w) = Returns (frame, None) ->
  let w1 := snd (RenderFromURL E I url width height w) in
  exists entry,
    vars w1 !! url = Some entry /\ rendered entry = frame /\
    (timeNow E (trace w1) - timestamp entry < cacheTTL ->
     fst (RenderFromURL E I url width' height' w1) = Returns (frame, None) /\
     requests (trace (snd (RenderFromURL E I url width' height' w1))) = requests (trace w1)).
Proof.
  intros Hurl Hout w1.
  assert (Hstored : exists entry, vars w1 !! url = Some entry /\ rendered entry = frame).
  { subst w1.
    destruct (render_paths E I url width height w Hurl)
      as [(entry & Hentry & _ & Hhit) | [(_ & e' & Hfail & _) | [(_ & Hpanic & _) |
          (_ & img & frame' & w0 & _ & _ & Hok & Hw1)]]].
    - rewrite Hhit in Hout |- *. injection Hout as <-. cbn [snd vars]. eauto.
    - rewrite Hfail in Hout. discriminate Hout.
    - rewrite Hpanic in Hout. discriminate Hout.
    - rewrite Hok in Hout. injection Hout as ->. rewrite Hw1.
      destruct (store_vars E I url frame w0) as [now ->].
      destruct (cacheSize <=? _); rewrite lookup_insert_eq; eauto. }
  destruct Hstored as (entry & Hentry & Hframe).
  exists entry. split; [exact Hentry |]. split; [exact Hframe |].
  intros Hage.
  assert (Hfresh : fresh E url w1 = true).
  { unfold fresh. rewrite Hentry. now apply Z.ltb_lt. }
  destruct (render_paths E I url width' height' w1 Hurl)
    as [(entry' & Hentry' & _ & Hhit) | [(Hstale & _) | [(Hstale & _) | (Hstale & _)]]];
    try congruence.
  rewrite Hhit. cbn [fst snd trace]. rewrite requests_app.
  split; [congruence | cbn; apply List.app_nil_r].
Qed.

Lemma miss_then_hit_witness :
  exists entry,
    vars Sample.one_entry !! "http://img/1"%string = Some entry /\
    rendered entry = sprintf_cell 255 128 0 255 128 0 +:+ reset.
Proof.
  destruct (miss_then_hit Sample.online Sample.imaging "http://img/1" 1 1 16 8
              Sample.empty_cache (sprintf_cell 255 128 0 255 128 0 +:+ reset)
              ltac:(discriminate) ltac:(vm_compute; reflexivity))
    as (entry & Hentry & Hrendered & _).
  exists entry. split; [exact Hentry | exact Hrendered].
Defined.

(** X4. RenderFromURL sends at most one request, a GET of its URL
    without Authorization header, and it sends none exactly when the URL is
    empty or the cache holds an entry for it that is younger than the
    TTL. *)
Theorem render_requests (E : Env) (I : Imaging) (url : string) (width height : Z)
    (w : State) :
  let sent := requests (trace (snd (RenderFromURL E I url width height w))) in
  (sent = requests (trace w) \/ sent = requests (trace w) ++ [GET url]) /\
  (sent = requests (trace w) <-> url = ""%string \/ fresh E url w = true).
Proof.
  intros sent. subst sent. rewrite sent_by_render.
  destruct (String.eqb_spec url "") as [Hurl | Hurl]; cbn [orb].
  - rewrite List.app_nil_r. split; [now left | tauto].
  - destruct (fresh E url w).
    + rewrite List.app_nil_r. split; [now left | tauto].
    + split; [now right |]. split.
      * intros H. apply (f_equal (@length Request)) in H.
        rewrite List.length_app in H. cbn in H. lia.
      * intros [H | H]; [contradiction | discriminate].
Qed.

(** X5. ClearCache empties the cache without touching anything else, and
    the next call for any non-empty URL downloads again, whatever was
    cached before. *)
Theorem clear_forces_download (E : Env) (I : Imaging) (url : string) (width height : Z)
    (w : State) :
  url <> ""%string ->
  let w1 := snd (ClearCache w) in
  vars w1 = ∅ /\ trace w1 = trace w /\
  requests (trace (snd (RenderFromURL E I url width height w1))) =
    requests (trace w) ++ [GET url].
Proof.
  intros Hurl w1. subst w1. cbn [ClearCache set_vars snd vars trace].
  split; [reflexivity |]. split; [reflexivity |].
  rewrite sent_by_render. cbn [trace]. apply String.eqb_neq in Hurl. rewrite Hurl.
  unfold fresh. cbn [vars orb]. now rewrite lookup_empty.
Qed.

Lemma clear_forces_download_witness :
  requests (trace (snd (RenderFromURL Sample.online Sample.imaging "http://img/1" 1 1
                          (snd (ClearCache Sample.one_entry))))) =
    requests (trace Sample.one_entry) ++ [GET "http://img/1"].
Proof.
  apply (clear_forces_download Sample.online Sample.imaging "http://img/1" 1 1
           Sample.one_entry).
  discriminate.
Defined.

Lemma replicate_concat (n : nat) (s : string) :
  replicate_str n s = String.concat "" (repeat s n).
Proof.
  induction n as [|n IH]; [reflexivity |].
  cbn [replicate_str repeat]. now rewrite concat_empty_cons, IH.
Qed.

(** X6. The placeholder has the shape of a frame: for at least one row,
    renderPlaceholder yields exactly [rows] lines without a trailing
    newline, each made of [cols] gray cells and closed by its only reset
    sequence. *)
Theorem placeholder_shape (cols rows : Z) :
  1 <= rows ->
  split LF (renderPlaceholder cols rows) = repeat (placeholder_line cols) (Z.to_nat rows) /\
  length (split LF (renderPlaceholder cols rows)) = Z.to_nat rows /\
  placeholder_line cols = String.concat "" (repeat gray_cell (Z.to_nat cols)) +:+ reset /\
  occurrences reset (placeholder_line cols) = 1%nat.
Proof.
  intros Hrows.
  assert (Hcells : Forall is_cell (repeat gray_cell (Z.to_nat cols))).
  { apply List.Forall_forall. intros c Hc. apply repeat_spec in Hc as ->.
    unfold gray_cell, is_cell. eauto 10. }
  assert (Hline : placeholder_line cols =
                  String.concat "" (repeat gray_cell (Z.to_nat cols)) +:+ reset).
  { unfold placeholder_line. now rewrite replicate_concat. }
  assert (Hsplit : split LF (renderPlaceholder cols rows) =
                   repeat (placeholder_line cols) (Z.to_nat rows)).
  { rewrite renderPlaceholder_frame. unfold placeholder. apply split_concat.
    - destruct (Z.to_nat rows) eqn:Hn; [lia | discriminate].
    - apply List.Forall_forall. intros l Hl. apply repeat_spec in Hl as ->.
      rewrite Hline. now apply line_no_LF. }
  split; [exact Hsplit |]. split; [now rewrite Hsplit, repeat_length |].
  split; [exact Hline |]. rewrite Hline. now apply line_one_reset.
Qed.

Lemma placeholder_shape_witness :
  length (split LF (renderPlaceholder 4 2)) = 2%nat /\
  occurrences reset (placeholder_line 4) = 1%nat.
Proof.
  destruct (placeholder_shape 4 2 ltac:(lia)) as (_ & Hlen & _ & Hreset).
  split; [exact Hlen | exact Hreset].
Defined.

(** X7. When one entry of a full cache is strictly older than all others,
    the insertion evicts exactly that entry, in whatever order [range]
    visits the map. *)
Theorem strictly_oldest_evicted (E : Env) (I : Imaging) (url frame : string) (w : State)
    (k0 : string) (e0 : cacheEntry) :
  range_ok I ->
  reachable E I w ->
  (10 <= size (vars w))%nat ->
  vars w !! k0 = Some e0 ->
  map_Forall (fun k e => k <> k0 -> timestamp e0 < timestamp e) (vars w) ->
  exists now,
    vars (snd (store E I url frame w)) = <[url := mkEntry frame now]> (delete k0 (vars w)).
Proof.
  intros Hrange Hreach Hfull Hk0 Hyoung.
  destruct (reachable_inv E I w Hrange Hreach) as [_ Hkeys].
  destruct (store_vars E I url frame w) as [now Hstore].
  exists now. rewrite Hstore. unfold cacheSize.
  destruct (Z.leb_spec 10 (Z.of_nat (size (vars w)))) as [_ | Hroom]; [| lia].
  destruct (evicted_entry I (trace w) (vars w) Hrange Hkeys ltac:(lia)) as (e & He & Hmin).
  destruct (decide (oldest (rangeOrder I (trace w) (vars w)) = k0)) as [-> | Hother];
    [reflexivity |].
  pose proof (Hyoung _ _ He Hother) as Hlt.
  pose proof (Hmin _ _ Hk0) as Hle. lia.
Qed.

Lemma strictly_oldest_evicted_witness :
  exists now,
    vars (snd (store Sample.online Sample.imaging "u11" "frame" Sample.full_cache)) =
      <["u11"%string := mkEntry "frame" now]> (delete "u01"%string (vars Sample.full_cache)).
Proof.
  apply (strictly_oldest_evicted Sample.online Sample.imaging "u11" "frame" Sample.full_cache
           "u01" (mkEntry (sprintf_cell 255 128 0 255 128 0 +:+ sprintf_cell 255 128 0 255 128 0
                             +:+ reset) 2)).
  - intros tr m. reflexivity.
  - apply full_cache_reachable.
  - vm_compute. lia.
  - vm_compute. reflexivity.
  - apply map_Forall_to_list. vm_compute.
    repeat (constructor;
            [first [intros _; reflexivity | intros H; exfalso; apply H; reflexivity] |]).
    constructor.
Defined.

End CacheFacts.


(** ** More on the client *)

Module ClientFacts.
Import Go GoFacts Spotify SpotifyFacts Token.
Import CacheFacts.

Lemma refresh_requests (E : Env) (J : Json) (w : State) :
  requests (trace (snd (refreshAccessToken E J w))) =
    requests (trace w) ++ [tokenRequest (vars w)].
Proof.
  pose proof (refresh_cases E J w) as H. cbv zeta in H.
  destruct (httpDo E (trace w) (tokenRequest (vars w))) as [resp | e].
  - destruct (StatusCode resp =? 200).
    + destruct (decodeToken J (Body resp)); rewrite H; cbn [snd trace];
        rewrite !requests_app; cbn; now rewrite ?List.app_nil_r.
    + rewrite H. cbn [snd trace]. now rewrite requests_app.
  - rewrite H. cbn [snd trace]. now rewrite requests_app.
Qed.

Lemma refresh_credentials (E : Env) (J : Json) (w : State) :
  credentials (vars (snd (refreshAccessToken E J w))) = credentials (vars w).
Proof.
  pose proof (refresh_cases E J w) as H. cbv zeta in H.
  destruct (httpDo E (trace w) (tokenRequest (vars w))) as [resp | e].
  - destruct (StatusCode resp =? 200).
    + destruct (decodeToken J (Body resp)); rewrite H; reflexivity.
    + rewrite H. reflexivity.
  - rewrite H. reflexivity.
Qed.

Lemma ensure_valid (E : Env) (J : Json) (w : State) :
  ensureValidToken E J w =
    if valid E w then (None, mkWorld (vars w) (trace w ++ [EvNow]))
    else if negb (String.eqb (accessToken (vars w)) "")
         then refreshAccessToken E J (mkWorld (vars w) (trace w ++ [EvNow]))
         else refreshAccessToken E J w.
Proof.
  rewrite ensure_cases. unfold valid.
  destruct (negb _); cbn [andb]; [| reflexivity].
  destruct (_ <? _); reflexivity.
Qed.

Lemma ensure_requests (E : Env) (J : Json) (w : State) :
  requests (trace (snd (ensureValidToken E J w))) =
    requests (trace w) ++ (if valid E w then [] else [tokenRequest (vars w)]).
Proof.
  rewrite ensure_valid. destruct (valid E w).
  - cbn [snd trace]. rewrite requests_app. reflexivity.
  - destruct (negb _).
    + rewrite refresh_requests. cbn [trace vars]. rewrite requests_app. cbn.
      now rewrite List.app_nil_r.
    + apply refresh_requests.
Qed.

Lemma ensure_credentials (E : Env) (J : Json) (w : State) :
  credentials (vars (snd (ensureValidToken E J w))) = credentials (vars w).
Proof.
  rewrite ensure_valid. destruct (valid E w); [reflexivity |].
  destruct (negb _); rewrite refresh_credentials; reflexivity.
Qed.

Lemma ensure_valid_keeps (E : Env) (J : Json) (w : State) :
  valid E w = true -> ensureValidToken E J w = (None, mkWorld (vars w) (trace w ++ [EvNow])).
Proof. intros H. rewrite ensure_valid. now rewrite H. Qed.

(** The two operations, by the result of their token step. *)
Lemma currently_playing_split (E : Env) (J : Json) (w : State) :
  let w0 := entered "GetCurrentlyPlaying" w in
  let w1 := snd (ensureValidToken E J w0) in
  let req := apiRequest currentlyPlayingURL (vars w1) in
  match fst (ensureValidToken E J w0) with
  | Some e =>
      GetCurrentlyPlaying E J w = (None, Some ("failed to get valid token: " +:+ e), w1)
  | None =>
      vars (snd (GetCurrentlyPlaying E J w)) = vars w1 /\
      requests (trace (snd (GetCurrentlyPlaying E J w))) = requests (trace w1) ++ [req] /\
      (forall t e, fst (GetCurrentlyPlaying E J w) <> (Some t, Some e))
  end.
Proof.
  intros w0 w1 req. subst w1 req w0. unfold entered.
  set (out := GetCurrentlyPlaying E J w).
  assert (Hdef : out = GetCurrentlyPlaying E J w) by reflexivity. clearbody out.
  revert Hdef. unfold GetCurrentlyPlaying.
  unfold mbind at 1, M_bind at 1, emit at 1.
  unfold mbind at 1, M_bind at 1. cbv beta iota.
  destruct (ensureValidToken E J _) as [[e |] w1]; cbn [fst snd]; [now intros -> |].
  unfold json_decode, get_vars, http_do, emit. unfold mbind, M_bind, mret, M_ret.
  cbv beta. cbn [vars trace].
  match goal with
  | |- context [httpDo E (trace w1) ?r] => destruct (httpDo E (trace w1) r) as [resp | e]
  end; cbn [fst snd vars trace];
    [| intros ->; cbn [fst snd vars trace]; rewrite requests_app; repeat split; congruence].
  destruct (StatusCode resp =? 204); cbn [fst snd vars trace];
    [intros ->; cbn [fst snd vars trace]; rewrite requests_app; repeat split; congruence |].
  destruct (negb (StatusCode resp =? 200)); cbn [fst snd vars trace];
    [intros ->; cbn [fst snd vars trace]; rewrite requests_app; repeat split; congruence |].
  destruct (decodeCurrentlyPlaying J (Body resp)) as [data | e]; cbn [fst snd vars trace].
  - destruct (cp_item data); intros ->; cbn [fst snd vars trace];
      rewrite !requests_app; cbn; rewrite List.app_nil_r; repeat split; congruence.
  - intros ->. cbn [fst snd vars trace].
    rewrite !requests_app; cbn; rewrite List.app_nil_r; repeat split; congruence.
Qed.

Lemma recently_played_split (E : Env) (J : Json) (w : State) :
  let w0 := entered "GetRecentlyPlayed" w in
  let w1 := snd (ensureValidToken E J w0) in
  let req := apiRequest recentlyPlayedURL (vars w1) in
  match fst (ensureValidToken E J w0) with
  | Some e =>
      GetRecentlyPlayed E J w = (None, Some ("failed to get valid token: " +:+ e), w1)
  | None =>
      vars (snd (GetRecentlyPlayed E J w)) = vars w1 /\
      requests (trace (snd (GetRecentlyPlayed E J w))) = requests (trace w1) ++ [req] /\
      (forall t e, fst (GetRecentlyPlayed E J w) <> (Some t, Some e))
  end.
Proof.
  intros w0 w1 req. subst w1 req w0. unfold entered.
  set (out := GetRecentlyPlayed E J w).
  assert (Hdef : out = GetRecentlyPlayed E J w) by reflexivity. clearbody out.
  revert Hdef. unfold GetRecentlyPlayed.
  unfold mbind at 1, M_bind at 1, emit at 1.
  unfold mbind at 1, M_bind at 1. cbv beta iota.
  destruct (ensureValidToken E J _) as [[e |] w1]; cbn [fst snd]; [now intros -> |].
  unfold json_decode, get_vars, http_do, emit. unfold mbind, M_bind, mret, M_ret.
  cbv beta. cbn [vars trace].
  match goal with
  | |- context [httpDo E (trace w1) ?r] => destruct (httpDo E (trace w1) r) as [resp | e]
  end; cbn [fst snd vars trace];
    [| intros ->; cbn [fst snd vars trace]; rewrite requests_app; repeat split; congruence].
  destruct (negb (StatusCode resp =? 200)); cbn [fst snd vars trace];
    [intros ->; cbn [fst snd vars trace]; rewrite requests_app; repeat split; congruence |].
  destruct (decodeRecentlyPlayed J (Body resp)) as [data | e]; cbn [fst snd vars trace].
  - destruct (rp_items data); intros ->; cbn [fst snd vars trace];
      rewrite !requests_app; cbn; rewrite List.app_nil_r; repeat split; congruence.
  - intros ->. cbn [fst snd vars trace].
    rewrite !requests_app; cbn; rewrite List.app_nil_r; repeat split; congruence.
Qed.

Lemma entered_requests (name : string) (w : State) :
  requests (trace (entered name w)) = requests (trace w).
Proof. unfold entered. cbn [trace]. rewrite requests_app. cbn. apply List.app_nil_r. Qed.

(** X8. An API operation sends at most two requests, in this order: the
    token request for the client's credentials, unless the token at hand is
    valid, and then, unless the token step failed, one GET of the
    operation's URL whose Bearer is the access token the client holds after
    the call. *)
Theorem api_call_requests (E : Env) (J : Json) (w : State) :
  (let w0 := entered "GetCurrentlyPlaying" w in
   let w' := snd (GetCurrentlyPlaying E J w) in
   requests (trace w') =
     requests (trace w) ++
     (if valid E w0 then [] else [tokenRequest (vars w)]) ++
     (match fst (ensureValidToken E J w0) with
      | None => [mkRequest "GET" currentlyPlayingURL (Bearer (accessToken (vars w'))) []]
      | Some _ => []
      end)) /\
  (let w0 := entered "GetRecentlyPlayed" w in
   let w' := snd (GetRecentlyPlayed E J w) in
   requests (trace w') =
     requests (trace w) ++
     (if valid E w0 then [] else [tokenRequest (vars w)]) ++
     (match fst (ensureValidToken E J w0) with
      | None => [mkRequest "GET" recentlyPlayedURL (Bearer (accessToken (vars w'))) []]
      | Some _ => []
      end)).
Proof.
  split; cbv zeta.
  - pose proof (currently_playing_split E J w) as H. cbv zeta in H.
    pose proof (ensure_requests E J (entered "GetCurrentlyPlaying" w)) as Hreq.
    rewrite entered_requests in Hreq.
    change (vars (entered "GetCurrentlyPlaying" w)) with (vars w) in Hreq.
    destruct (fst (ensureValidToken E J (entered "GetCurrentlyPlaying" w))) as [e |].
    + rewrite H. cbn [snd]. rewrite Hreq. now rewrite List.app_nil_r.
    + destruct H as (Hvars & Hsent & _). rewrite Hsent, Hreq, Hvars.
      now rewrite <- List.app_assoc.
  - pose proof (recently_played_split E J w) as H. cbv zeta in H.
    pose proof (ensure_requests E J (entered "GetRecentlyPlayed" w)) as Hreq.
    rewrite entered_requests in Hreq.
    change (vars (entered "GetRecentlyPlayed" w)) with (vars w) in Hreq.
    destruct (fst (ensureValidToken E J (entered "GetRecentlyPlayed" w))) as [e |].
    + rewrite H. cbn [snd]. rewrite Hreq. now rewrite List.app_nil_r.
    + destruct H as (Hvars & Hsent & _). rewrite Hsent, Hreq, Hvars.
      now rewrite <- List.app_assoc.
Qed.

(** X9. When the token step of an API operation fails, the operation
    returns no track and the error of the token step behind the prefix
    "failed to get valid token: "; the only request it has sent is the
    token request, and none goes to the API. *)
Theorem token_failure_stops_call (E : Env) (J : Json) (w : State) (e : error) :
  (fst (ensureValidToken E J (entered "GetCurrentlyPlaying" w)) = Some e ->
   fst (GetCurrentlyPlaying E J w) = (None, Some ("failed to get valid token: " +:+ e)) /\
   requests (trace (snd (GetCurrentlyPlaying E J w))) =
     requests (trace w) ++ [tokenRequest (vars w)]) /\
  (fst (ensureValidToken E J (entered "GetRecentlyPlayed" w)) = Some e ->
   fst (GetRecentlyPlayed E J w) = (None, Some ("failed to get valid token: " +:+ e)) /\
   requests (trace (snd (GetRecentlyPlayed E J w))) =
     requests (trace w) ++ [tokenRequest (vars w)]).
Proof.
  assert (Hfail : forall w0 : State,
             fst (ensureValidToken E J w0) = Some e -> valid E w0 = false).
  { intros w0 H. destruct (valid E w0) eqn:Hv; [| reflexivity].
    rewrite (ensure_valid_keeps E J w0 Hv) in H. discriminate H. }
  split; intros Htok.
  - pose proof (currently_playing_split E J w) as H. cbv zeta in H. rewrite Htok in H.
    rewrite H. cbn [fst snd]. split; [reflexivity |].
    rewrite ensure_requests, entered_requests, (Hfail _ Htok). reflexivity.
  - pose proof (recently_played_split E J w) as H. cbv zeta in H. rewrite Htok in H.
    rewrite H. cbn [fst snd]. split; [reflexivity |].
    rewrite ensure_requests, entered_requests, (Hfail _ Htok). reflexivity.
Qed.

Lemma token_failure_stops_call_witness :
  fst (GetCurrentlyPlaying Sample.online Sample.garbled Sample.fresh_client) =
    (None, Some ("failed to get valid token: "
                 +:+ "invalid character '<' looking for beginning of value")) /\
  requests (trace (snd (GetCurrentlyPlaying Sample.online Sample.garbled Sample.fresh_client))) =
    requests (trace Sample.fresh_client) ++ [tokenRequest (vars Sample.fresh_client)].
Proof.
  apply (token_failure_stops_call Sample.online Sample.garbled Sample.fresh_client
           "invalid character '<' looking for beginning of value").
  reflexivity.
Defined.

(** X10. No operation of the client changes the credentials it was made
    with: client id, client secret and refresh token are the same after
    refreshAccessToken, ensureValidToken, GetCurrentlyPlaying and
    GetRecentlyPlayed, whatever the token endpoint answers. *)
Theorem credentials_kept (E : Env) (J : Json) (w : State) :
  credentials (vars (snd (refreshAccessToken E J w))) = credentials (vars w) /\
  credentials (vars (snd (ensureValidToken E J w))) = credentials (vars w) /\
  credentials (vars (snd (GetCurrentlyPlaying E J w))) = credentials (vars w) /\
  credentials (vars (snd (GetRecentlyPlayed E J w))) = credentials (vars w).
Proof.
  split; [apply refresh_credentials |]. split; [apply ensure_credentials |]. split.
  - pose proof (currently_playing_split E J w) as H. cbv zeta in H.
    pose proof (ensure_credentials E J (entered "GetCurrentlyPlaying" w)) as Hc.
    destruct (fst (ensureValidToken E J _)) as [e |].
    + rewrite H. exact Hc.
    + destruct H as (-> & _). exact Hc.
  - pose proof (recently_played_split E J w) as H. cbv zeta in H.
    pose proof (ensure_credentials E J (entered "GetRecentlyPlayed" w)) as Hc.
    destruct (fst (ensureValidToken E J _)) as [e |].
    + rewrite H. exact Hc.
    + destruct H as (-> & _). exact Hc.
Qed.

(** X11. A client straight from NewClient holds no valid token: its
    first ensureValidToken does not even read the clock and sends exactly
    one request, a POST to the token endpoint with the Basic credentials
    (client id, client secret) and the form grant_type=refresh_token,
    refresh_token=<refresh token>. *)
Theorem new_client_refreshes (E : Env) (J : Json) (id secret refresh : string)
    (tr : list Event) :
  let w := mkWorld (NewClient id secret refresh) tr in
  valid E w = false /\
  requests (trace (snd (ensureValidToken E J w))) =
    requests tr ++
    [mkRequest "POST" "https://accounts.spotify.com/api/token" (Basic id secret)
       [("grant_type", "refresh_token"); ("refresh_token", refresh)]%string] /\
  exists evs, trace (snd (ensureValidToken E J w)) =
                tr ++ EvSend (tokenRequest (NewClient id secret refresh)) :: evs.
Proof.
  intros w. split; [reflexivity |]. split.
  - rewrite ensure_requests. reflexivity.
  - rewrite ensure_valid. subst w. cbn [valid vars accessToken NewClient String.eqb negb andb trace].
    pose proof (refresh_cases E J (mkWorld (NewClient id secret refresh) tr)) as H.
    cbv zeta in H. cbn [vars trace] in H.
    destruct (httpDo E tr _) as [resp | e].
    + destruct (StatusCode resp =? 200).
      * destruct (decodeToken J (Body resp)); rewrite H; cbn [snd trace];
          rewrite <- !List.app_assoc; eauto.
      * rewrite H. cbn [snd trace]. eauto.
    + rewrite H. cbn [snd trace]. eauto.
Qed.

Lemma recently_played_reply (E : Env) (J : Json) (w : State) (resp : Response) :
  let w0 := entered "GetRecentlyPlayed" w in
  let w1 := snd (ensureValidToken E J w0) in
  let req := apiRequest recentlyPlayedURL (vars w1) in
  fst (ensureValidToken E J w0) = None ->
  httpDo E (trace w1) req = Ok resp ->
  GetRecentlyPlayed E J w =
    if negb (StatusCode resp =? 200) then
      (None, Some ("spotify API error: " +:+ fmt_d (StatusCode resp)),
       mkWorld (vars w1) (trace w1 ++ [EvSend req]))
    else
      (match decodeRecentlyPlayed J (Body resp) with
       | Err e => (None, Some e)
       | Ok data =>
           match rp_items data with
           | [] => (None, None)
           | it :: _ => (Some (trackOf it false), None)
           end
       end,
       mkWorld (vars w1) ((trace w1 ++ [EvSend req]) ++ [EvJSON (Body resp)])).
Proof.
  intros w0 w1 req Htok Hresp. subst w1 req w0. unfold entered in *.
  unfold GetRecentlyPlayed.
  unfold mbind at 1, M_bind at 1, emit at 1.
  unfold mbind at 1, M_bind at 1. cbv beta iota.
  destruct (ensureValidToken E J _) as [err w1]. cbn [fst snd] in *. subst err.
  unfold mbind, M_bind, get_vars, http_do. rewrite Hresp.
  destruct (StatusCode resp =? 200); cbn [negb]; [| reflexivity].
  unfold json_decode, emit, mbind, M_bind, mret, M_ret. cbn [vars trace].
  destruct (decodeRecentlyPlayed J (Body resp)) as [data | e]; [| reflexivity].
  destruct (rp_items data); reflexivity.
Qed.

(** X12. Once the token is ensured and the API has answered,
    GetRecentlyPlayed accepts status 200 only: every other status, 204
    included, yields an error whose text contains the status, and the body
    is not decoded. On 200 an empty list of items gives no track and no
    error, a body that does not decode gives the decoder's error, and
    otherwise the first item gives the track, with the first artist and the
    first image or [""], marked as not playing. *)
Theorem recently_played_cases (E : Env) (J : Json) (w : State) (resp : Response) :
  let w0 := entered "GetRecentlyPlayed" w in
  let w1 := snd (ensureValidToken E J w0) in
  let req := apiRequest recentlyPlayedURL (vars w1) in
  let out := GetRecentlyPlayed E J w in
  fst (ensureValidToken E J w0) = None ->
  httpDo E (trace w1) req = Ok resp ->
  (StatusCode resp <> 200 ->
     (exists msg, fst out = (None, Some msg) /\ contains msg (fmt_d (StatusCode resp))) /\
     trace (snd out) = trace w1 ++ [EvSend req]) /\
  (StatusCode resp = 200 ->
     (forall e, decodeRecentlyPlayed J (Body resp) = Err e -> fst out = (None, Some e)) /\
     (forall data, decodeRecentlyPlayed J (Body resp) = Ok data ->
        (rp_items data = [] -> fst out = (None, None)) /\
        (forall it rest, rp_items data = it :: rest ->
           fst out =
             (Some (mkTrack (item_name it) (hd ""%string (item_artists it))
                            (album_name (item_album it))
                            (hd ""%string (album_images (item_album it))) false), None)))).
Proof.
  intros w0 w1 req out Htok Hresp. subst out.
  rewrite (recently_played_reply E J w resp Htok Hresp). fold w0 w1 req.
  split.
  - intros H200. destruct (Z.eqb_spec (StatusCode resp) 200) as [| _]; [contradiction |].
    cbn [negb fst snd trace]. split; [| reflexivity].
    eexists. split; [reflexivity | apply contains_suffix].
  - intros ->. cbn [Z.eqb Pos.eqb negb fst]. split.
    + intros e ->. reflexivity.
    + intros data ->. split.
      * intros ->. reflexivity.
      * intros it rest ->. now rewrite trackOf_fields.
Qed.

Lemma recently_played_cases_witness :
  fst (GetRecentlyPlayed Sample.nothing_playing Sample.json Sample.fresh_client) =
    (Some (mkTrack "Fade" "Blur" "13" "http://img/1" false), None).
Proof.
  destruct (recently_played_cases Sample.nothing_playing Sample.json Sample.fresh_client
              (mkResponse 200 "{}") ltac:(reflexivity) ltac:(reflexivity))
    as (_ & H200).
  destruct (H200 ltac:(reflexivity)) as (_ & Hdata).
  destruct (Hdata (mkRecentlyPlayed [Sample.fade]) ltac:(reflexivity)) as (_ & Hitem).
  apply (Hitem Sample.fade []). reflexivity.
Defined.

Lemma lifetime_nonpositive (expiresIn : Z) :
  0 <= expiresIn <= 60 -> lifetime expiresIn <= 0.
Proof.
  intros H. unfold lifetime, Second.
  rewrite (wrap_id (expiresIn - 60)) by (unfold in_int, min_int, max_int; lia).
  rewrite wrap_id by (unfold in_int, min_int, max_int; lia). lia.
Qed.

(** X13. A token granted for 60 seconds or less is stored as already
    expired: after such a refresh the recorded expiry is not later than the
    clock reading of the refresh, so as long as the clock does not run
    backwards the token is never found valid, and the next
    ensureValidToken sends a token request again. *)
Theorem short_grant_never_reused (E : Env) (J : Json) (w w2 : State)
    (resp : Response) (tok : tokenResponse) :
  httpDo E (trace w) (tokenRequest (vars w)) = Ok resp ->
  StatusCode resp = 200 ->
  decodeToken J (Body resp) = Ok tok ->
  0 <= ExpiresIn tok <= 60 ->
  let now := timeNow E ((trace w ++ [EvSend (tokenRequest (vars w))]) ++ [EvJSON (Body resp)]) in
  let w' := snd (refreshAccessToken E J w) in
  vars w2 = vars w' ->
  now <= timeNow E (trace w2) ->
  fst (refreshAccessToken E J w) = None /\
  tokenExpiry (vars w') <= now /\
  valid E w2 = false /\
  requests (trace (snd (ensureValidToken E J w2))) =
    requests (trace w2) ++ [tokenRequest (vars w2)].
Proof.
  intros Hresp H200 Hdec Hexp now w' Hvars Hclock. subst w'.
  pose proof (refresh_cases E J w) as H. cbv zeta in H.
  rewrite Hresp, H200, Hdec in H. cbn [Z.eqb Pos.eqb] in H.
  pose proof (lifetime_nonpositive _ Hexp) as Hlife.
  assert (Hexpiry : tokenExpiry (vars (snd (refreshAccessToken E J w))) <= now).
  { rewrite H. cbn [snd vars tokenExpiry]. subst now. lia. }
  assert (Hinvalid : valid E w2 = false).
  { unfold valid. rewrite Hvars.
    destruct (Z.ltb_spec (timeNow E (trace w2))
                (tokenExpiry (vars (snd (refreshAccessToken E J w))))) as [Hlt | _];
      [lia | apply andb_false_r]. }
  split; [now rewrite H |]. split; [exact Hexpiry |]. split; [exact Hinvalid |].
  rewrite ensure_requests, Hinvalid. reflexivity.
Qed.

Lemma short_grant_never_reused_witness :
  let w' := snd (refreshAccessToken Sample.slow_clock Sample.minute Sample.fresh_client) in
  tokenExpiry (vars w') <= 0 /\
  requests (trace (snd (ensureValidToken Sample.slow_clock Sample.minute w'))) =
    requests (trace w') ++ [tokenRequest (vars w')].
Proof.
  destruct (short_grant_never_reused Sample.slow_clock Sample.minute Sample.fresh_client
              (snd (refreshAccessToken Sample.slow_clock Sample.minute Sample.fresh_client))
              (mkResponse 200 "{}") (mkTokenResponse "BQD" "Bearer" 60)
              ltac:(reflexivity) ltac:(reflexivity) ltac:(reflexivity) ltac:(cbn; lia)
              ltac:(reflexivity) ltac:(vm_compute; discriminate))
    as (_ & Hexpiry & _ & Hagain).
  cbv zeta. split; [exact Hexpiry | exact Hagain].
Defined.

End ClientFacts.


(** ** More on the session *)

Module SessionMore.
Import Go GoFacts Spotify Session SpotifyFacts SessionFacts Token Startup.
Import CacheFacts ClientFacts.

(** What one API operation adds to the requests sent. *)
Lemma api_sent (E : Env) (J : Json) (w : Spotify.State) :
  (exists l, requests (trace (snd (GetCurrentlyPlaying E J w))) = requests (trace w) ++ l /\
             (length l <= 2)%nat /\
             Forall (fun r => req_url r = "https://accounts.spotify.com/api/token"%string \/
                              req_url r = currentlyPlayingURL) l) /\
  (exists l, requests (trace (snd (GetRecentlyPlayed E J w))) = requests (trace w) ++ l /\
             (length l <= 2)%nat /\
             Forall (fun r => req_url r = "https://accounts.spotify.com/api/token"%string \/
                              req_url r = recentlyPlayedURL) l).
Proof.
  split.
  - pose proof (currently_playing_split E J w) as H. cbv zeta in H.
    pose proof (ensure_requests E J (entered "GetCurrentlyPlaying" w)) as Hreq.
    rewrite entered_requests in Hreq.
    destruct (fst (ensureValidToken E J (entered "GetCurrentlyPlaying" w))) as [e |].
    + rewrite H. cbn [snd]. rewrite Hreq. eexists. split; [reflexivity |].
      destruct (valid E _); (split; [cbn; lia |]); repeat apply Forall_cons;
        try apply Forall_nil; auto.
    + destruct H as (_ & -> & _). rewrite Hreq, <- List.app_assoc.
      eexists. split; [reflexivity |].
      destruct (valid E _); (split; [cbn; lia |]); repeat apply Forall_cons;
        try apply Forall_nil; auto.
  - pose proof (recently_played_split E J w) as H. cbv zeta in H.
    pose proof (ensure_requests E J (entered "GetRecentlyPlayed" w)) as Hreq.
    rewrite entered_requests in Hreq.
    destruct (fst (ensureValidToken E J (entered "GetRecentlyPlayed" w))) as [e |].
    + rewrite H. cbn [snd]. rewrite Hreq. eexists. split; [reflexivity |].
      destruct (valid E _); (split; [cbn; lia |]); repeat apply Forall_cons;
        try apply Forall_nil; auto.
    + destruct H as (_ & -> & _). rewrite Hreq, <- List.app_assoc.
      eexists. split; [reflexivity |].
      destruct (valid E _); (split; [cbn; lia |]); repeat apply Forall_cons;
        try apply Forall_nil; auto.
Qed.

Lemma fetchTrack_with (E : Env) (J : Json) (w : Session.State) (c : Client) :
  vars w = Some c ->
  fetchTrack E J w =
    (fst (fetchWith E J (mkWorld c (trace w))),
     mkWorld (Some (vars (snd (fetchWith E J (mkWorld c (trace w))))))
             (trace (snd (fetchWith E J (mkWorld c (trace w)))))).
Proof.
  intros Hc. unfold fetchTrack. rewrite Hc.
  destruct (fetchWith E J (mkWorld c (trace w))). reflexivity.
Qed.

(** X14. A fetch round talks to the three Spotify endpoints only and sends
    at most four requests, at most two when the first operation returns a
    track or an error; without a client it sends none. *)
Theorem fetch_round_requests (E : Env) (J : Json) (w : Session.State) :
  exists l,
    requests (trace (snd (fetchTrack E J w))) = requests (trace w) ++ l /\
    (length l <= 4)%nat /\
    (vars w = None -> l = []) /\
    (forall c, vars w = Some c ->
       fst (GetCurrentlyPlaying E J (mkWorld c (trace w))) <> (None, None) ->
       (length l <= 2)%nat) /\
    Forall (fun r => req_url r = "https://accounts.spotify.com/api/token"%string \/
                     req_url r = currentlyPlayingURL \/ req_url r = recentlyPlayedURL) l.
Proof.
  destruct (vars w) as [c |] eqn:Hc.
  - rewrite (fetchTrack_with E J w c Hc). cbn [snd trace].
    pose proof (fetchWith_cases E J (mkWorld c (trace w))) as Hcases. cbv zeta in Hcases.
    destruct (api_sent E J (mkWorld c (trace w))) as [(l1 & Hl1 & Hn1 & Hu1) _].
    destruct (api_sent E J (snd (GetCurrentlyPlaying E J (mkWorld c (trace w)))))
      as [_ (l2 & Hl2 & Hn2 & Hu2)].
    cbn [trace] in Hl1.
    assert (Hone : Forall (fun r => req_url r = "https://accounts.spotify.com/api/token"%string \/
                     req_url r = currentlyPlayingURL \/ req_url r = recentlyPlayedURL) l1).
    { eapply Forall_impl; [exact Hu1 |]. cbn. tauto. }
    rewrite Hcases.
    destruct (fst (GetCurrentlyPlaying E J (mkWorld c (trace w)))) as [[t |] [e |]] eqn:Hfirst;
      cbn [snd].
    + exists l1. repeat split; trivial; try lia; discriminate.
    + exists l1. repeat split; trivial; try lia; discriminate.
    + exists l1. repeat split; trivial; try lia; discriminate.
    + exists (l1 ++ l2). rewrite Hl2, Hl1, <- List.app_assoc.
      split; [reflexivity |]. split; [rewrite List.length_app; lia |].
      split; [discriminate |]. split; [intros c' [= <-] H; congruence |].
      apply Forall_app. split; [exact Hone |].
      eapply Forall_impl; [exact Hu2 |]. cbn. tauto.
  - unfold fetchTrack. rewrite Hc. cbn [snd]. exists []. rewrite List.app_nil_r.
    repeat split; trivial; try (cbn; lia); try discriminate.
Qed.

(** X15. No operation hands back a track together with an error:
    GetCurrentlyPlaying and GetRecentlyPlayed never do, and neither does the
    message of fetchTrack. *)
Theorem never_track_and_error (E : Env) (J : Json) :
  (forall w t e, fst (GetCurrentlyPlaying E J w) <> (Some t, Some e)) /\
  (forall w t e, fst (GetRecentlyPlayed E J w) <> (Some t, Some e)) /\
  (forall w t e, fst (fetchTrack E J w) <> mkTrackMsg (Some t) (Some e)).
Proof.
  assert (Hcp : forall w t e, fst (GetCurrentlyPlaying E J w) <> (Some t, Some e)).
  { intros w t e. pose proof (currently_playing_split E J w) as H. cbv zeta in H.
    destruct (fst (ensureValidToken E J _)); [rewrite H; discriminate | apply H]. }
  assert (Hrp : forall w t e, fst (GetRecentlyPlayed E J w) <> (Some t, Some e)).
  { intros w t e. pose proof (recently_played_split E J w) as H. cbv zeta in H.
    destruct (fst (ensureValidToken E J _)); [rewrite H; discriminate | apply H]. }
  split; [exact Hcp |]. split; [exact Hrp |].
  intros w t e. destruct (vars w) as [c |] eqn:Hc.
  - rewrite (fetchTrack_with E J w c Hc). cbn [fst].
    pose proof (fetchWith_cases E J (mkWorld c (trace w))) as Hcases. cbv zeta in Hcases.
    rewrite Hcases.
    destruct (fst (GetCurrentlyPlaying E J (mkWorld c (trace w)))) as [[t1 |] [e1 |]];
      cbn [fst]; try discriminate.
    pose proof (Hrp (snd (GetCurrentlyPlaying E J (mkWorld c (trace w))))) as Hsecond.
    destruct (fst (GetRecentlyPlayed E J _)) as [[t2 |] [e2 |]]; cbn; try discriminate.
    exfalso. now apply (Hsecond t2 e2).
  - unfold fetchTrack. rewrite Hc. discriminate.
Qed.

(** X16. The model never loses its track: a message either leaves the
    current track as it is or is a track message without error, whose
    track becomes the current one; messages with an error or without a
    track change nothing at all. So a model that shows a track keeps
    showing one, whatever messages arrive. *)
Theorem track_never_dropped (m : model) :
  (forall msg,
      currentTrack (fst (Update m msg)) = currentTrack m \/
      exists t, msg = TrackMsg (mkTrackMsg (Some t) None) /\
                currentTrack (fst (Update m msg)) = Some t) /\
  (forall t e, Update m (TrackMsg (mkTrackMsg t (Some e))) = (m, CmdNil)) /\
  (forall e, Update m (TrackMsg (mkTrackMsg None e)) = (m, CmdNil)) /\
  (forall msgs, is_Some (currentTrack m) -> is_Some (currentTrack (deliver m msgs))).
Proof.
  assert (Hstep : forall m0 msg,
     currentTrack (fst (Update m0 msg)) = currentTrack m0 \/
     exists t, msg = TrackMsg (mkTrackMsg (Some t) None) /\
               currentTrack (fst (Update m0 msg)) = Some t).
  { intros m0 [w h | [[t |] [e |]] | | key]; cbn; auto.
    - right. eauto.
    - destruct (_ || _); auto. }
  split; [apply Hstep |]. split; [reflexivity |].
  split; [intros [e |]; reflexivity |].
  intros msgs. revert m. induction msgs as [| msg msgs IH]; intros m Hm; [exact Hm |].
  cbn [deliver fold_left]. apply IH.
  destruct (Hstep m msg) as [-> | (t & _ & ->)]; [exact Hm | eauto].
Qed.

Lemma track_never_dropped_witness :
  is_Some (currentTrack
             (deliver (mkModel 80 24 (Some (mkTrack "Fade" "Blur" "13" "" false)))
                [TrackMsg (mkTrackMsg None (Some "spotify API error: 500"%string));
                 TickMsg; WindowSizeMsg 100 30; TrackMsg (mkTrackMsg None None)])).
Proof.
  destruct (track_never_dropped (mkModel 80 24 (Some (mkTrack "Fade" "Blur" "13" "" false))))
    as (_ & _ & _ & Hkept).
  apply Hkept. eauto.
Defined.

(** X17. Every text line of the widget fits the 26 columns the layout
    leaves for it: name, artist and album are each at most 26 bytes long
    after clipping, and clipping a clipped text changes nothing. *)
Theorem widget_text_fits (m : model) (wt : widgetText) :
  renderSpotifyWidget m = Some wt ->
  len (trackName wt) <= 26 /\ len (artist wt) <= 26 /\ len (album wt) <= 26 /\
  clip (trackName wt) = trackName wt /\ clip (artist wt) = artist wt /\
  clip (album wt) = album wt.
Proof.
  assert (Hlen : forall s, len (clip s) <= 26).
  { intros s. unfold clip. destruct (Z.ltb_spec 26 (len s)) as [Hlong | Hshort]; [| exact Hshort].
    unfold len, slice_to in *. rewrite length_app, length_substring by lia. cbn. lia. }
  assert (Hidem : forall s, clip (clip s) = clip s).
  { intros s. unfold clip at 1. destruct (Z.ltb_spec 26 (len (clip s))) as [H | _];
      [specialize (Hlen s); lia | reflexivity]. }
  unfold renderSpotifyWidget. destruct (currentTrack m) as [t |]; [| discriminate].
  intros [= <-]. cbn [trackName artist album]. repeat split; auto.
Qed.

Lemma widget_text_fits_witness :
  len (clip Sample.long_name) <= 26 /\ clip (clip Sample.long_name) = clip Sample.long_name.
Proof.
  destruct (widget_text_fits
              (mkModel 80 24 (Some (mkTrack Sample.long_name "" "" "" true)))
              (mkWidgetText (clip Sample.long_name) (clip "") (clip ""))
              ltac:(reflexivity)) as (Hlen & _ & _ & Hidem & _).
  split; [exact Hlen | exact Hidem].
Defined.

(** X18. The client exists exactly when client id, client secret and
    refresh token are all set, and is then a new client with these
    credentials. In a process without it every fetch round sends nothing
    and returns a message that leaves any model as it is: the session
    started by teaHandler never gets a track. *)
Theorem missing_configuration_idles (E : Env) (J : Json) (id secret refresh : string)
    (tr : list Event) (m : model) :
  (configure id secret refresh = None <->
     id = ""%string \/ secret = ""%string \/ refresh = ""%string) /\
  (configure id secret refresh <> None ->
     configure id secret refresh = Some (NewClient id secret refresh)) /\
  (configure id secret refresh = None ->
     let out := fetchTrack E J (mkWorld (configure id secret refresh) tr) in
     snd out = mkWorld None tr /\
     Update m (TrackMsg (fst out)) = (m, CmdNil) /\
     forall (windowWidth windowHeight : Z) (rounds : nat),
       currentTrack (deliver (teaHandler windowWidth windowHeight)
                       (repeat (TrackMsg (fst out)) rounds)) = None).
Proof.
  unfold configure.
  destruct (String.eqb_spec id "") as [Hid | Hid];
    destruct (String.eqb_spec secret "") as [Hsec | Hsec];
    destruct (String.eqb_spec refresh "") as [Href | Href]; cbn [negb andb].
  8: { split; [split; [discriminate | tauto] |]. split; [reflexivity | discriminate]. }
  all: split; [split; [tauto | reflexivity] |]; split; [congruence |]; intros _;
    cbn; split; [reflexivity |]; split; [reflexivity |];
    intros ww wh rounds; induction rounds as [| n IH]; [reflexivity | exact IH].
Qed.

Lemma missing_configuration_idles_witness :
  snd (fetchTrack Sample.nothing_playing Sample.json (mkWorld (configure "id" "" "refresh") [])) =
    mkWorld None [].
Proof.
  destruct (missing_configuration_idles Sample.nothing_playing Sample.json "id" "" "refresh" []
              (mkModel 80 24 None)) as (_ & _ & Hidle).
  destruct (Hidle ltac:(reflexivity)) as (Hsnd & _). exact Hsnd.
Defined.

(** X19. The top padding of View centres the content: for a terminal
    height and a content height that are non-negative [int]s it is never
    negative; content that fits is placed with the space below exceeding
    the space above by at most one line, and content taller than the
    terminal gets no padding. *)
Theorem top_padding_centres (height contentHeight : Z) :
  0 <= height <= max_int ->
  0 <= contentHeight <= max_int ->
  0 <= topPadding height contentHeight /\
  (contentHeight <= height ->
     0 <= height - contentHeight - 2 * topPadding height contentHeight <= 1) /\
  (height <= contentHeight -> topPadding height contentHeight = 0).
Proof.
  unfold max_int. intros Hh Hc. unfold topPadding.
  rewrite wrap_id by (unfold in_int, min_int, max_int; lia).
  destruct (Z.ltb_spec (Z.quot (height - contentHeight) 2) 0) as [Hneg | Hpos].
  - split; [lia |]. split; [| reflexivity]. intros Hfit.
    pose proof (Z.quot_pos (height - contentHeight) 2 ltac:(lia) ltac:(lia)). lia.
  - split; [exact Hpos |]. split.
    + intros Hfit. rewrite Z.quot_div_nonneg by lia.
      pose proof (Z.div_mod (height - contentHeight) 2 ltac:(lia)).
      pose proof (Z.mod_pos_bound (height - contentHeight) 2 ltac:(lia)). lia.
    + intros Htall. destruct (Z.eq_dec height contentHeight) as [-> | Hne].
      * now rewrite Z.sub_diag.
      * assert (Hq : Z.quot (height - contentHeight) 2 <= 0)
          by (apply Z.quot_le_upper_bound; lia || (rewrite Z.quot_opp_l; lia)).
        lia.
Qed.

Lemma top_padding_centres_witness :
  0 <= topPadding 24 15 /\ 0 <= 24 - 15 - 2 * topPadding 24 15 <= 1.
Proof.
  destruct (top_padding_centres 24 15 ltac:(unfold max_int; lia) ltac:(unfold max_int; lia))
    as (Hpos & Hfit & _).
  split; [exact Hpos | apply Hfit; lia].
Defined.

(** X20. A track made from an item whose album has no image has the
    empty artwork URL, and the widget then shows the 16 x 8 placeholder:
    no request is sent for it and the cache is not touched. *)
Theorem art_without_images (E : Env) (I : Albumart.Imaging) (m : model)
    (it : itemJSON) (playing : bool) (w : Albumart.State) :
  album_images (item_album it) = [] ->
  currentTrack m = Some (trackOf it playing) ->
  ArtworkURL (trackOf it playing) = ""%string /\
  widgetArt E I m w = (Some (Returns (Frame.placeholder 16 8)), w).
Proof.
  intros Himages Htrack.
  assert (Hurl : ArtworkURL (trackOf it playing) = ""%string).
  { rewrite trackOf_fields. cbn [ArtworkURL]. now rewrite Himages. }
  split; [exact Hurl |].
  unfold widgetArt. rewrite Htrack, Hurl. unfold mbind, M_bind.
  rewrite AlbumartFacts.RenderFromURL_empty. reflexivity.
Qed.

Lemma art_without_images_witness :
  widgetArt Sample.online Sample.imaging
    (mkModel 80 24 (Some (trackOf (mkItemJSON "Fade" (mkAlbumJSON "13" []) ["Blur"%string]) true)))
    Sample.empty_cache =
  (Some (Returns (Frame.placeholder 16 8)), Sample.empty_cache).
Proof.
  apply (art_without_images Sample.online Sample.imaging _
           (mkItemJSON "Fade" (mkAlbumJSON "13" []) ["Blur"%string]) true Sample.empty_cache);
    reflexivity.
Defined.

End SessionMore.
